(** * OLLIE (offline-to-online imitation learning): main.py

    A shallow embedding of the numerical core of [main.py]: the trajectory
    splitter, the replay buffer, the discriminator, the PU discriminator
    loss, the data selector and the policy losses.

    Conventions.
    - A float is a real number ([R]); a tensor of shape (n, d) is a list of
      n rows, each a list of d reals; a tensor of shape (n,) is a list of
      reals.  The one-column buffers (reward, not_done, flag, weight,
      timeout), of shape (n, 1), are stored by their single entry per row
      and turned back into (n, 1) matrices where a tensor operation reads
      them.
    - A Python exception is a value of [PyErr]; a call that may raise
      returns [Res A = PyErr + A].
    - Random draws are read from an oracle [rng : nat -> nat]. *)

From Stdlib Require Import List Bool Arith ZArith Lia.
From Stdlib Require Import Reals Lra.
Import ListNotations.

Set Implicit Arguments.

(** ** Exceptions *)

Inductive PyErr : Type :=
| TypeError
| IndexError
| ValueError
| RuntimeError.

Definition Res (A : Type) : Type := (PyErr + A)%type.

Definition ok {A : Type} (a : A) : Res A := inr a.
Definition raise {A : Type} (e : PyErr) : Res A := inl e.

Definition bind {A B : Type} (c : Res A) (f : A -> Res B) : Res B :=
  match c with
  | inl e => inl e
  | inr a => f a
  end.

Notation "x <- c ;; k" := (bind c (fun x => k))
  (at level 61, c at next level, right associativity).

(** ** Lists as arrays *)

Fixpoint zipWith {A B C : Type} (f : A -> B -> C) (l : list A) (m : list B)
  : list C :=
  match l, m with
  | a :: l', b :: m' => f a b :: zipWith f l' m'
  | _, _ => []
  end.

(** [x[mask]]: the rows of [x] at which the boolean [mask] holds. *)
Fixpoint bool_index {A : Type} (x : list A) (mask : list bool) : list A :=
  match x, mask with
  | a :: x', b :: mask' =>
      if b then a :: bool_index x' mask' else bool_index x' mask'
  | _, _ => []
  end.

Definition count_true (mask : list bool) : nat :=
  length (filter (fun b => b) mask).

(** [x[ind]] for an index tensor [ind]: IndexError out of range. *)
Fixpoint take_rows {A : Type} (x : list A) (ind : list nat) : Res (list A) :=
  match ind with
  | [] => ok []
  | i :: ind' =>
      match nth_error x i with
      | None => raise IndexError
      | Some a => rest <- take_rows x ind' ;; ok (a :: rest)
      end
  end.

(** ** Real-number helpers *)

Open Scope R_scope.

Definition Rleb (x y : R) : bool := if Rle_dec x y then true else false.
Definition Rltb (x y : R) : bool := if Rlt_dec x y then true else false.
Definition Reqb (x y : R) : bool := if Req_dec_T x y then true else false.

Definition Rsum (l : list R) : R := fold_right Rplus 0 l.

Definition dot (w x : list R) : R := Rsum (zipWith Rmult w x).

Definition relu (x : R) : R := Rmax 0 x.
Definition sigmoid (x : R) : R := 1 / (1 + exp (- x)).

(** [torch.clip(x, lo, hi)] on one entry: [min(max(x, lo), hi)]. *)
Definition clip (lo hi x : R) : R := Rmin (Rmax x lo) hi.

(** ** nn.Linear and the Discriminator (lines 383-397) *)

Record Linear : Type := {
  weight_of : list (list R);   (* (out_features, in_features) *)
  bias_of : list R             (* (out_features,) *)
}.

(** [F.linear] on one row: [x W^T + b].  Shapes are those the constructor
    fixes; torch raises on others, here the zip stops at the shorter. *)
Definition linear (l : Linear) (x : list R) : list R :=
  zipWith Rplus (map (fun w => dot w x) (weight_of l)) (bias_of l).

Record Discriminator : Type := {
  fc1 : Linear;
  fc2 : Linear;
  fc3 : Linear
}.

(** [torch.cat([state, action], dim=1)]. *)
Definition cat1 (state action : list (list R)) : list (list R) :=
  zipWith (@app R) state action.

Definition forward (D : Discriminator) (state action : list (list R))
  : list (list R) :=
  let state_action := cat1 state action in
  let d := map (fun x => map relu (linear (fc1 D) x)) state_action in
  let d := map (fun x => map relu (linear (fc2 D) x)) d in
  let d := map (fun x => map sigmoid (linear (fc3 D) x)) d in
  let d := map (map (clip 0.1 0.9)) d in
  d.

(** Calling the module with positional arguments: [forward] has exactly the
    two parameters [state] and [action]; any other number of arguments is a
    TypeError raised before the body runs. *)
Definition call_discriminator (D : Discriminator) (args : list (list (list R)))
  : Res (list (list R)) :=
  match args with
  | [state; action] => ok (forward D state action)
  | _ => raise TypeError
  end.

(** ** Tensors of dimension at most two, with torch broadcasting *)

Inductive Tensor : Type :=
| T0 (x : R)                  (* shape () *)
| T1 (v : list R)             (* shape (n,) *)
| T2 (m : list (list R)).     (* shape (n, d) *)

(** The (n, 1) matrix of a one-column buffer. *)
Definition col (c : list R) : list (list R) := map (fun x => [x]) c.

Definition t_map (f : R -> R) (t : Tensor) : Tensor :=
  match t with
  | T0 x => T0 (f x)
  | T1 v => T1 (map f v)
  | T2 m => T2 (map (map f) m)
  end.

(** Broadcasting along one axis: equal extents pair up, an extent of 1 is
    repeated, anything else is a RuntimeError. *)
Definition bcast_row (f : R -> R -> R) (r1 r2 : list R) : Res (list R) :=
  if (length r1 =? length r2)%nat then ok (zipWith f r1 r2)
  else if (length r1 =? 1)%nat then ok (map (f (hd 0 r1)) r2)
  else if (length r2 =? 1)%nat then ok (map (fun x => f x (hd 0 r2)) r1)
  else raise RuntimeError.

Fixpoint rows_same (f : R -> R -> R) (m1 m2 : list (list R))
  : Res (list (list R)) :=
  match m1, m2 with
  | r1 :: m1', r2 :: m2' =>
      r <- bcast_row f r1 r2 ;; m <- rows_same f m1' m2' ;; ok (r :: m)
  | _, _ => ok []
  end.

Fixpoint rows_left (f : R -> R -> R) (r1 : list R) (m2 : list (list R))
  : Res (list (list R)) :=
  match m2 with
  | [] => ok []
  | r2 :: m2' =>
      r <- bcast_row f r1 r2 ;; m <- rows_left f r1 m2' ;; ok (r :: m)
  end.

Fixpoint rows_right (f : R -> R -> R) (m1 : list (list R)) (r2 : list R)
  : Res (list (list R)) :=
  match m1 with
  | [] => ok []
  | r1 :: m1' =>
      r <- bcast_row f r1 r2 ;; m <- rows_right f m1' r2 ;; ok (r :: m)
  end.

Definition bcast_mat (f : R -> R -> R) (m1 m2 : list (list R))
  : Res (list (list R)) :=
  if (length m1 =? length m2)%nat then rows_same f m1 m2
  else if (length m1 =? 1)%nat then rows_left f (hd [] m1) m2
  else if (length m2 =? 1)%nat then rows_right f m1 (hd [] m2)
  else raise RuntimeError.

(** An elementwise binary operation.  Shapes are aligned from the last
    axis: a vector of shape (n,) meets a matrix as the single row (1, n). *)
Definition t_bin (f : R -> R -> R) (t1 t2 : Tensor) : Res Tensor :=
  match t1, t2 with
  | T0 x, _ => ok (t_map (f x) t2)
  | _, T0 y => ok (t_map (fun x => f x y) t1)
  | T1 v1, T1 v2 => v <- bcast_row f v1 v2 ;; ok (T1 v)
  | T1 v1, T2 m2 => m <- bcast_mat f [v1] m2 ;; ok (T2 m)
  | T2 m1, T1 v2 => m <- bcast_mat f m1 [v2] ;; ok (T2 m)
  | T2 m1, T2 m2 => m <- bcast_mat f m1 m2 ;; ok (T2 m)
  end.

Definition t_add : Tensor -> Tensor -> Res Tensor := t_bin Rplus.
Definition t_mul : Tensor -> Tensor -> Res Tensor := t_bin Rmult.
Definition t_neg : Tensor -> Tensor := t_map Ropp.
Definition t_log : Tensor -> Tensor := t_map ln.

Definition entries (t : Tensor) : list R :=
  match t with
  | T0 x => [x]
  | T1 v => v
  | T2 m => concat m
  end.

(** [torch.mean(t)]: the mean over all entries. *)
Definition t_mean (t : Tensor) : R :=
  Rsum (entries t) / INR (length (entries t)).

(** [torch.sum(m, 1)]: shape (n, d) to shape (n,). *)
Definition t_sum1 (m : list (list R)) : Tensor := T1 (map Rsum m).

(** ** Replay buffer (lines 282-343) *)

Record ReplayBuffer : Type := mkReplayBuffer {
  max_size : nat;
  ptr : nat;
  size : nat;
  state : list (list R);
  action : list (list R);
  next_state : list (list R);
  reward : list R;
  not_done : list R;
  flag : list R;
  weight : list R;
  timeout : list R
}.

Definition ReplayBuffer_init (state_dim action_dim max_size : nat)
  : ReplayBuffer :=
  {| max_size := max_size;
     ptr := 0;
     size := 0;
     state := repeat (repeat 0 state_dim) max_size;
     action := repeat (repeat 0 action_dim) max_size;
     next_state := repeat (repeat 0 state_dim) max_size;
     reward := repeat 0 max_size;
     not_done := repeat 0 max_size;
     flag := repeat 0 max_size;
     weight := repeat 1 max_size;
     timeout := repeat 1 max_size |}.

(** [torch.randint(low, high, (n,))]: n draws from [low, high); the range
    must be non-empty, whatever n is. *)
Definition randint (rng : nat -> nat) (low high n : nat) : Res (list nat) :=
  if (low <? high)%nat
  then ok (map (fun j => (low + rng j mod (high - low))%nat) (seq 0 n))
  else raise RuntimeError.

(** The tuple [sample] returns, in the order of the source. *)
Record Batch : Type := mkBatch {
  b_state : list (list R);
  b_action : list (list R);
  b_next_state : list (list R);
  b_reward : list R;
  b_not_done : list R;
  b_flag : list R;
  b_weight : list R;
  b_timeout : list R
}.

Definition index_batch (self : ReplayBuffer) (ind : list nat) : Res Batch :=
  s <- take_rows (state self) ind ;;
  a <- take_rows (action self) ind ;;
  ns <- take_rows (next_state self) ind ;;
  r <- take_rows (reward self) ind ;;
  nd <- take_rows (not_done self) ind ;;
  f <- take_rows (flag self) ind ;;
  w <- take_rows (weight self) ind ;;
  t <- take_rows (timeout self) ind ;;
  ok (mkBatch s a ns r nd f w t).

Definition sample (rng : nat -> nat) (self : ReplayBuffer) (batch_size : nat)
  : Res Batch :=
  ind <- randint rng 0 (size self) batch_size ;;
  index_batch self ind.

(** The dictionary [convert_d4rl] reads: the six columns the splitter
    emits and the [flag] column [get_datasets] adds. *)
Record Dataset : Type := mkDataset {
  observations : list (list R);
  actions : list (list R);
  next_observations : list (list R);
  rewards : list R;
  terminals : list bool;
  timeouts : list bool
}.

Definition b2r (b : bool) : R := if b then 1 else 0.

Definition convert_d4rl (self : ReplayBuffer) (dataset : Dataset)
           (dataset_flag : list bool) : ReplayBuffer :=
  {| max_size := max_size self;
     ptr := ptr self;
     size := length (observations dataset);
     state := observations dataset;
     action := actions dataset;
     next_state := next_observations dataset;
     reward := rewards dataset;
     not_done := map (fun t => 1 - b2r t) (terminals dataset);
     flag := map b2r dataset_flag;
     weight := map (fun _ => 1) (rewards dataset);
     timeout := map b2r (timeouts dataset) |}.

(** [(x - mean) / std] with [mean] and [std] of shape (d,), row by row. *)
Definition standardize (mean std : list R) (x : list (list R))
  : list (list R) :=
  map (fun row =>
         zipWith (fun v ms => (v - fst ms) / snd ms) row (combine mean std))
      x.

Definition normalize_states (self : ReplayBuffer) (mean std : list R)
  : ReplayBuffer :=
  {| max_size := max_size self;
     ptr := ptr self;
     size := size self;
     state := standardize mean std (state self);
     action := action self;
     next_state := standardize mean std (next_state self);
     reward := reward self;
     not_done := not_done self;
     flag := flag self;
     weight := weight self;
     timeout := timeout self |}.

Definition add_transitions (self replay_buffer : ReplayBuffer)
  : ReplayBuffer :=
  {| max_size := max_size self;
     ptr := ptr self;
     size := length (state self ++ state replay_buffer);
     state := state self ++ state replay_buffer;
     action := action self ++ action replay_buffer;
     next_state := next_state self ++ next_state replay_buffer;
     reward := reward self ++ reward replay_buffer;
     not_done := not_done self ++ not_done replay_buffer;
     flag := flag self ++ flag replay_buffer;
     weight := weight self ++ weight replay_buffer;
     timeout := timeout self ++ timeout replay_buffer |}.

(** ** The algorithm object (lines 411-455)

    The two actors enter the losses only through the log densities
    [get_log_density] returns; those tensors are arguments below. *)

Record Model : Type := mkModel {
  discriminator : Discriminator;
  no_pu_learning : bool;
  eta : R;
  alpha : R;
  automatic_alpha_tuning : bool;
  epsilon : R;
  log_alpha : R
}.

(** ** train_discriminator: the loss of one step (lines 469-483) *)

Definition d_loss (self : Model) (d_e d_s : Tensor) : Res R :=
  if no_pu_learning self then
    let d_loss_e := t_neg (t_log d_e) in
    let d_loss_s := t_neg (t_log (t_map (fun x => 1 - x) d_s)) in
    l <- t_add d_loss_e d_loss_s ;;
    ok (t_mean l)
  else
    let d_loss_e := t_neg (t_log d_e) in
    d_loss_s <-
      t_add (t_map (fun x => x / eta self)
                   (t_neg (t_log (t_map (fun x => 1 - x) d_s))))
            (t_log (t_map (fun x => 1 - x) d_e)) ;;
    l <- t_add d_loss_e d_loss_s ;;
    ok (t_mean l).

Definition train_discriminator_loss (rng_e rng_s : nat -> nat) (self : Model)
           (replay_buffer_e replay_buffer_s : ReplayBuffer) (batch_size : nat)
  : Res R :=
  be <- sample rng_e replay_buffer_e batch_size ;;
  bs <- sample rng_s replay_buffer_s batch_size ;;
  d_e <- call_discriminator (discriminator self) [b_state be; b_action be] ;;
  d_s <- call_discriminator (discriminator self) [b_state bs; b_action bs] ;;
  d_loss self (T2 d_e) (T2 d_s).

(** The loss as the specification writes it, entry by entry:
    [mean(-log(d_e) - log(1-d_s))] and
    [mean(-log(d_e) - log(1-d_s)/eta + log(1-d_e))]. *)
Definition spec_d_loss (no_pu : bool) (eta : R) (d_e d_s : list R) : R :=
  if no_pu
  then Rsum (zipWith (fun e s => - ln e - ln (1 - s)) d_e d_s)
       / INR (length d_e)
  else Rsum (zipWith (fun e s => - ln e - ln (1 - s) / eta + ln (1 - e))
                     d_e d_s)
       / INR (length d_e).

(** ** train_policy: the losses of one step (lines 457-460, 540-552) *)

Definition alpha_and_alpha_loss (self : Model) (log_pi log_pi_e : Tensor)
  : R * R :=
  let alpha_loss :=
    exp (log_alpha self) * (t_mean log_pi + epsilon self - t_mean log_pi_e) in
  let alpha := exp (log_alpha self) in
  (alpha, alpha_loss).

(** [log_pi_s], [log_pi_e]: the student's log densities on the two
    minibatches, of shape (B, action_dim); [log_pi_e_e]: the reference
    policy's on the D_e minibatch; [weight_s]: the sampled weight column,
    of shape (B, 1).  Returns the coefficient in force, the alpha loss when
    tuning is on, and the policy loss. *)
Definition train_policy_losses (self : Model)
           (log_pi_s log_pi_e log_pi_e_e : list (list R)) (weight_s : list R)
  : Res (R * option R * R) :=
  let '(alpha', alpha_loss) :=
    if automatic_alpha_tuning self
    then let '(a, l) := alpha_and_alpha_loss self (t_sum1 log_pi_e)
                                             (t_sum1 log_pi_e_e) in
         (a, Some l)
    else (alpha self, None) in
  weighted <- t_mul (t_neg (t_sum1 log_pi_s)) (T2 (col weight_s)) ;;
  let p_loss :=
    t_mean weighted + alpha' * t_mean (t_neg (t_sum1 log_pi_e)) in
  ok (alpha', alpha_loss, p_loss).

(** The policy loss as the specification words it: a per-sample weighted
    negative log-likelihood on the D_s minibatch plus the alpha-scaled
    negative log-likelihood on the D_e minibatch. *)
Definition spec_policy_loss (alpha : R) (log_pi_s log_pi_e : list (list R))
           (weight_s : list R) : R :=
  Rsum (zipWith (fun row w => - Rsum row * w) log_pi_s weight_s)
    / INR (length log_pi_s)
  - alpha * (Rsum (map Rsum log_pi_e) / INR (length log_pi_e)).

(** ** select_data (lines 493-525) *)

(** [torch.squeeze(scores >= bar)] for scores of shape (n, 1), n > 1: the
    mask of shape (n,). *)
Definition ge_mask (scores : list (list R)) (bar : R) : list bool :=
  concat (map (map (fun d => Rleb bar d)) scores).

(** [c[-1] = v]. *)
Definition set_last (c : list R) (v : R) : Res (list R) :=
  match c with
  | [] => raise IndexError
  | _ => ok (removelast c ++ [v])
  end.

(** [torch.where(cond)[0]], counted from [off]. *)
Fixpoint where_true (off : nat) (cond : list bool) : list nat :=
  match cond with
  | [] => []
  | b :: cond' =>
      if b then off :: where_true (S off) cond' else where_true (S off) cond'
  end.

(** [(not_done == 0) | (timeout == 1)]. *)
Definition episode_ends (not_done timeout : list R) : list bool :=
  zipWith orb (map (fun x => Reqb x 0) not_done)
              (map (fun x => Reqb x 1) timeout).

Definition boundaries (not_done timeout : list R) : list nat :=
  map (fun i => (i + 1)%nat) (where_true 0 (episode_ends not_done timeout)).

(** [index[start:stop] = False], with [pos] the position of the head. *)
Fixpoint clear_range (pos start stop : nat) (index : list bool) : list bool :=
  match index with
  | [] => []
  | b :: index' =>
      (if (start <=? pos)%nat && (pos <? stop)%nat then false else b)
        :: clear_range (S pos) start stop index'
  end.

(** The loop [for end in done] of lines 509-512. *)
Fixpoint clear_heads (k : nat) (done : list nat) (start : nat)
         (index : list bool) : list bool :=
  match done with
  | [] => index
  | e :: done' =>
      clear_heads k done' e
                  (clear_range 0 start (Nat.min e (start + k + 1)) index)
  end.

(** [mask[:-(k + 1)] |= index[k + 1:]]: in place, so the right-hand slice
    has the extent of the left-hand one or the extent 1. *)
Definition or_shift (k : nat) (mask index : list bool) : Res (list bool) :=
  let n := length mask in
  let head := firstn (n - (k + 1)) mask in
  let tail := skipn (k + 1) index in
  if (length head =? length tail)%nat
  then ok (zipWith orb head tail ++ skipn (n - (k + 1)) mask)
  else if (length tail =? 1)%nat
  then ok (map (fun b => b || hd false tail) head
             ++ skipn (n - (k + 1)) mask)
  else raise RuntimeError.

(** [weight[mask & (weight < weight_decay), :] = weight_decay]: the mask
    has one entry per row of [weight]. *)
Definition raise_weights (mask : list bool) (w : list R) (weight_decay : R)
  : Res (list R) :=
  if (length mask =? length w)%nat
  then ok (zipWith (fun (m : bool) x => if m && Rltb x weight_decay
                                        then weight_decay else x) mask w)
  else raise IndexError.

(** One pass of the loop of line 507; the loop state is the mask, the
    weight column and [weight_decay]. *)
Definition rollback_iter (self : Model) (state action : list (list R))
           (done : list nat) (bar decay : R) (k : nat)
           (st : list bool * list R * R) : Res (list bool * list R * R) :=
  let '(mask, w, weight_decay) := st in
  scores <- call_discriminator (discriminator self) [state; action] ;;
  let index := ge_mask scores bar in
  let index := clear_heads k done 0 index in
  mask <- or_shift k mask index ;;
  w <- raise_weights mask w weight_decay ;;
  ok (mask, w, weight_decay * decay).

Arguments rollback_iter : simpl never.

Fixpoint rollback_loop (self : Model) (state action : list (list R))
         (done : list nat) (bar decay : R) (ks : list nat)
         (st : list bool * list R * R) : Res (list bool * list R * R) :=
  match ks with
  | [] => ok st
  | k :: ks' =>
      st' <- rollback_iter self state action done bar decay k st ;;
      rollback_loop self state action done bar decay ks' st'
  end.

(** [x[mask, :]]: the mask must have one entry per row. *)
Definition mask_rows {A : Type} (x : list A) (mask : list bool)
  : Res (list A) :=
  if (length mask =? length x)%nat then ok (bool_index x mask)
  else raise IndexError.

(** Lines 498-525, from the base mask that line 496 binds.  A buffer of a
    single row is outside this function: there [torch.squeeze] returns a
    mask of shape (). *)
Definition select_data_from (self : Model) (mask : list bool)
           (replay_buffer_s : ReplayBuffer) (bar : R) (rollback : nat)
           (decay weight_init : R) : Res ReplayBuffer :=
  not_done' <- set_last (not_done replay_buffer_s) 0 ;;
  let done := boundaries not_done' (timeout replay_buffer_s) in
  let state := state replay_buffer_s in
  let action := action replay_buffer_s in
  let w := map (fun x => x - 1) (weight replay_buffer_s) in
  st <- rollback_loop self state action done bar decay (seq 0 rollback)
                      (mask, w, weight_init) ;;
  let '(mask, w, _) := st in
  state' <- mask_rows state mask ;;
  action' <- mask_rows action mask ;;
  next_state' <- mask_rows (next_state replay_buffer_s) mask ;;
  reward' <- mask_rows (reward replay_buffer_s) mask ;;
  not_done'' <- mask_rows not_done' mask ;;
  flag' <- mask_rows (flag replay_buffer_s) mask ;;
  weight' <- mask_rows w mask ;;
  ok {| max_size := max_size replay_buffer_s;
        ptr := ptr replay_buffer_s;
        size := length state';
        state := state';
        action := action';
        next_state := next_state';
        reward := reward';
        not_done := not_done'';
        flag := flag';
        weight := weight';
        timeout := timeout replay_buffer_s |}.

Definition select_data (self : Model) (replay_buffer_s : ReplayBuffer)
           (bar : R) (rollback : nat) (decay weight_init : R)
  : Res ReplayBuffer :=
  let next_state := next_state replay_buffer_s in
  scores <- call_discriminator (discriminator self) [next_state] ;;
  let mask := ge_mask scores bar in
  select_data_from self mask replay_buffer_s bar rollback decay weight_init.

(** ** Trajectory splitter (lines 145-278) *)

(** One entry of the six parallel per-trajectory lists ([obs_traj],
    [next_obs_traj], [action_traj], [reward_traj], [done_traj],
    [timeout_traj]), which the loop extends in lockstep. *)
Record Step : Type := mkStep {
  s_obs : list R;
  s_next_obs : list R;
  s_action : list R;
  s_reward : R;
  s_done : bool;
  s_timeout : bool
}.

Definition lookup {A : Type} (l : list A) (i : nat) : Res A :=
  match nth_error l i with
  | Some a => ok a
  | None => raise IndexError
  end.

(** The reads of one pass of the loop over [range(n - 1)]. *)
Definition read_step (dataset : Dataset) (i : nat) : Res Step :=
  o <- lookup (observations dataset) i ;;
  o' <- lookup (observations dataset) (i + 1) ;;
  a <- lookup (actions dataset) i ;;
  r <- lookup (rewards dataset) i ;;
  d <- lookup (terminals dataset) i ;;
  t <- lookup (timeouts dataset) i ;;
  ok (mkStep o o' a r d t).

(** The segmentation loop.  The list of trajectories of the source is
    [closed ++ [current]]: [current] is its last element, the one the loop
    appends to. *)
Fixpoint segment (dataset : Dataset) (terminate_on_end : bool)
         (range : list nat) (closed : list (list Step)) (current : list Step)
  : Res (list (list Step)) :=
  match range with
  | [] => ok (closed ++ [current])
  | i :: range' =>
      st <- read_step dataset i ;;
      let current := current ++ [st] in
      let final_timestep := s_timeout st || s_done st in
      if negb terminate_on_end && final_timestep
      then segment dataset terminate_on_end range' (closed ++ [current]) []
      else segment dataset terminate_on_end range' closed current
  end.

Definition trajectories (dataset : Dataset) (terminate_on_end : bool)
  : Res (list (list Step)) :=
  let n := length (rewards dataset) in
  segment dataset terminate_on_end (seq 0 (n - 1)) [] [].

(** [l[:k]] for a Python integer [k]. *)
Definition py_prefix {A : Type} (l : list A) (k : Z) : list A :=
  if (0 <=? k)%Z then firstn (Z.to_nat k) l
  else firstn (length l - Z.to_nat (- k)) l.

(** [l[-k:]] for [k > 0]. *)
Definition py_suffix {A : Type} (l : list A) (k : Z) : list A :=
  skipn (length l - Z.to_nat k) l.

(** [list(set(a) - set(b))] for lists of small distinct indices, which a
    set yields in increasing order. *)
Definition set_minus (a b : list nat) : list nat :=
  filter (fun i => negb (existsb (Nat.eqb i) b)) a.

(** [np.concatenate(trajectories, 0)] on per-trajectory lists of rows: an
    empty trajectory is an array of shape (0,), a non-empty one has two
    axes; no array at all, or arrays of different numbers of axes, is a
    ValueError. *)
Definition is_nil {A : Type} (l : list A) : bool :=
  match l with [] => true | _ => false end.

Definition concat_rows {A : Type} (ts : list (list (list A)))
  : Res (list (list A)) :=
  match ts with
  | [] => raise ValueError
  | _ => if forallb is_nil ts || forallb (fun t => negb (is_nil t)) ts
         then ok (concat ts)
         else raise ValueError
  end.

(** The same on per-trajectory lists of scalars: every array has one axis. *)
Definition concat_scalars {A : Type} (ts : list (list A)) : Res (list A) :=
  match ts with
  | [] => raise ValueError
  | _ => ok (concat ts)
  end.

(** The dictionary literal of lines 203-210 (and 212-219, 271-278). *)
Definition concat_dataset (trajs : list (list Step)) : Res Dataset :=
  o <- concat_rows (map (map s_obs) trajs) ;;
  a <- concat_rows (map (map s_action) trajs) ;;
  o' <- concat_rows (map (map s_next_obs) trajs) ;;
  r <- concat_scalars (map (map s_reward) trajs) ;;
  d <- concat_scalars (map (map s_done) trajs) ;;
  t <- concat_scalars (map (map s_timeout) trajs) ;;
  ok (mkDataset o a o' r d t).

Definition pick (trajs : list (list Step)) (inds : list nat)
  : list (list Step) :=
  map (fun i => nth i trajs []) inds.

(** Returns [(dataset_e, dataset_s)]; the empty dictionary is [None]. *)
Definition dataset_split_expert (dataset : Dataset) (split_x exp_num : Z)
           (terminate_on_end : bool) : Res (Dataset * option Dataset) :=
  trajs <- trajectories dataset terminate_on_end ;;
  let inds_all := seq 0 (length trajs) in
  let inds_succ := py_prefix inds_all exp_num in
  let inds_s := if (0 <? split_x)%Z then py_suffix inds_succ split_x
                else [] in
  let inds_e := set_minus inds_succ inds_s in
  let trajs_e := pick trajs inds_e in
  let trajs_s := pick trajs inds_s in
  dataset_e <- concat_dataset trajs_e ;;
  dataset_s <- (if is_nil trajs_s then ok None
                else d <- concat_dataset trajs_s ;; ok (Some d)) ;;
  ok (dataset_e, dataset_s).

Definition dataset_m_trajs (dataset : Dataset) (m : Z)
           (terminate_on_end : bool) : Res Dataset :=
  trajs <- trajectories dataset terminate_on_end ;;
  let inds_all := seq 0 (length trajs) in
  let inds := py_prefix inds_all m in
  concat_dataset (pick trajs inds).

(** ** Shape predicates *)

(** Every column has exactly [size] rows. *)
Definition columns_match_size (b : ReplayBuffer) : Prop :=
  length (state b) = size b /\ length (action b) = size b /\
  length (next_state b) = size b /\ length (reward b) = size b /\
  length (not_done b) = size b /\ length (flag b) = size b /\
  length (weight b) = size b /\ length (timeout b) = size b.

(** Every column has at least [size] rows. *)
Definition columns_cover_size (b : ReplayBuffer) : Prop :=
  (size b <= length (state b))%nat /\ (size b <= length (action b))%nat /\
  (size b <= length (next_state b))%nat /\
  (size b <= length (reward b))%nat /\
  (size b <= length (not_done b))%nat /\ (size b <= length (flag b))%nat /\
  (size b <= length (weight b))%nat /\ (size b <= length (timeout b))%nat.

(** Two matrices with rows of pairwise equal extents. *)
Definition same_shape (m1 m2 : list (list R)) : Prop :=
  Forall2 (fun r1 r2 : list R => length r1 = length r2) m1 m2.

(** Position [j] lies in none of the slices that the loop of lines 509-512
    clears when it runs over [done] from [start]. *)
Fixpoint outside_heads (k start : nat) (done : list nat) (j : nat) : Prop :=
  match done with
  | [] => True
  | e :: done' =>
      ~ (start <= j < Nat.min e (start + k + 1))%nat
      /\ outside_heads k e done' j
  end.

(** The rows [x[ind]] when every index is in range. *)
Definition rows_at {A : Type} (d : A) (x : list A) (ind : list nat) : list A :=
  map (fun i => nth i x d) ind.

(** ** Concrete data used by the examples *)

(** A discriminator on one state and one action coordinate whose score is
    [clip(sigmoid(relu(relu(s)) - 1))]. *)
Definition demo_discriminator : Discriminator :=
  {| fc1 := {| weight_of := [[1; 0]]; bias_of := [0] |};
     fc2 := {| weight_of := [[1]]; bias_of := [0] |};
     fc3 := {| weight_of := [[1]]; bias_of := [-1] |} |}.

Definition demo_model : Model :=
  {| discriminator := demo_discriminator;
     no_pu_learning := false;
     eta := 0.5;
     alpha := 1;
     automatic_alpha_tuning := true;
     epsilon := 0.01;
     log_alpha := 0 |}.

(** One trajectory of three transitions; only the last state scores above
    one half under [demo_discriminator]. *)
Definition demo_buffer : ReplayBuffer :=
  {| max_size := 100;
     ptr := 0;
     size := 3;
     state := [[0]; [0]; [2]];
     action := [[0]; [0]; [0]];
     next_state := [[0]; [2]; [3]];
     reward := [0; 0; 0];
     not_done := [1; 1; 1];
     flag := [0; 0; 0];
     weight := [1; 1; 1];
     timeout := [0; 0; 0] |}.

(** Three rows without any terminal or timeout flag. *)
Definition demo_dataset : Dataset :=
  {| observations := [[0]; [1]; [2]];
     actions := [[0]; [0]; [0]];
     next_observations := [[1]; [2]; [3]];
     rewards := [0; 0; 0];
     terminals := [false; false; false];
     timeouts := [false; false; false] |}.

Definition demo_rng (j : nat) : nat := j.

(** Three rows, the last but one of which ends an episode. *)
Definition demo_ended : Dataset :=
  {| observations := [[0]; [1]; [2]];
     actions := [[0]; [0]; [0]];
     next_observations := [[1]; [2]; [3]];
     rewards := [0; 0; 0];
     terminals := [false; true; false];
     timeouts := [false; false; false] |}.

(** Five rows, the second of which ends an episode. *)
Definition demo_episodes : Dataset :=
  {| observations := [[0]; [1]; [2]; [3]; [4]];
     actions := [[0]; [0]; [0]; [0]; [0]];
     next_observations := [[1]; [2]; [3]; [4]; [5]];
     rewards := [0; 0; 0; 0; 0];
     terminals := [false; true; false; false; false];
     timeouts := [false; false; false; false; false] |}.

(** ** get_datasets (lines 131-141) *)

(** [np.concatenate([a, b], 0)] on two arrays of rows of one width. *)
Definition concat_pair_rows {A : Type} (a b : list (list A))
  : Res (list (list A)) :=
  concat_rows [a; b].

(** The loop over [dataset_s.keys()] of lines 139-140, the flag column
    included. *)
Definition extend_dataset (dataset_s : Dataset) (flag_s : list bool)
           (extra : Dataset) (flag_extra : list bool)
  : Res (Dataset * list bool) :=
  o <- concat_pair_rows (observations dataset_s) (observations extra) ;;
  a <- concat_pair_rows (actions dataset_s) (actions extra) ;;
  o' <- concat_pair_rows (next_observations dataset_s)
                         (next_observations extra) ;;
  ok (mkDataset o a o'
                (rewards dataset_s ++ rewards extra)
                (terminals dataset_s ++ terminals extra)
                (timeouts dataset_s ++ timeouts extra),
      flag_s ++ flag_extra).

(** Returns [(dataset_e, dataset_s)], each with its flag column. *)
Definition get_datasets (dataset_e_raw dataset_s_raw : Dataset)
           (num_e num_s_e num_s_s : Z)
  : Res ((Dataset * list bool) * (Dataset * list bool)) :=
  dataset_s <- dataset_m_trajs dataset_s_raw num_s_s false ;;
  let flag_s := map (fun _ => false) (terminals dataset_s) in
  es <- dataset_split_expert dataset_e_raw num_s_e (num_e + num_s_e) false ;;
  let '(dataset_e, dataset_s_extra) := es in
  let flag_e := map (fun _ => true) (terminals dataset_e) in
  match dataset_s_extra with
  | None => ok ((dataset_e, flag_e), (dataset_s, flag_s))
  | Some extra =>
      let flag_extra := map (fun _ => true) (terminals extra) in
      s <- extend_dataset dataset_s flag_s extra flag_extra ;;
      ok ((dataset_e, flag_e), s)
  end.

(** ** cal_returns (lines 67-72) *)

(** [range(start, stop)]. *)
Definition py_range (start stop : Z) : list Z :=
  map (fun i => (start + Z.of_nat i)%Z) (seq 0 (Z.to_nat (stop - start))).

(** The loop body begins with [1 - dones], on the list [dones]: a
    TypeError. *)
Definition cal_returns_loop (rewards : list R) (dones : list bool)
           (discount : R) (range : list Z) (returns : list R)
  : Res (list R) :=
  match range with
  | [] => ok returns
  | _ :: _ => raise TypeError
  end.

Definition cal_returns (rewards : list R) (dones : list bool) (discount : R)
  : Res (list R) :=
  cal_returns_loop rewards dones discount
                   (py_range (Z.of_nat (length rewards)) (-1)) [].

(** ** label_offline_reward (lines 46-65) *)

(** Exceptions beyond those of [PyErr]. *)
Inductive PyExc : Type :=
| KeyError
| AttributeError
| Builtin (e : PyErr).

Definition ResX (A : Type) : Type := (PyExc + A)%type.

Definition bindX {A B : Type} (c : ResX A) (f : A -> ResX B) : ResX B :=
  match c with
  | inl e => inl e
  | inr a => f a
  end.

Notation "x <-- c ;; k" := (bindX c (fun x => k))
  (at level 61, c at next level, right associativity).

Definition lookupX {A : Type} (l : list A) (i : nat) : ResX A :=
  match nth_error l i with
  | Some a => inr a
  | None => inl (Builtin IndexError)
  end.

(** [l[i] = v]. *)
Fixpoint set_nth {A : Type} (i : nat) (v : A) (l : list A) : ResX (list A) :=
  match l, i with
  | [], _ => inl (Builtin IndexError)
  | _ :: l', O => inr (v :: l')
  | a :: l', S i' => l'' <-- set_nth i' v l' ;; inr (a :: l'')
  end.

(** Lines 51-52 for one row: the score of the row, of shape (1, 1), and
    its logarithmic odds; a score array of another size cannot be stored
    in one entry of the reward column. *)
Definition log_odds (D : Discriminator) (o a : list R) : ResX R :=
  match forward D [o] [a] with
  | [[d]] => inr (ln (d / (1 - d)))
  | _ => inl (Builtin ValueError)
  end.

(** The loop of lines 50-52. *)
Fixpoint relabel (D : Discriminator) (obs acts : list (list R))
         (range : list nat) (rewards : list R) : ResX (list R) :=
  match range with
  | [] => inr rewards
  | i :: range' =>
      o <-- lookupX obs i ;;
      a <-- lookupX acts i ;;
      r <-- log_odds D o a ;;
      rewards' <-- set_nth i r rewards ;;
      relabel D obs acts range' rewards'
  end.

(** [max(l)] and [min(l)]: ValueError on an empty sequence. *)
Definition py_max (l : list R) : ResX R :=
  match l with
  | [] => inl (Builtin ValueError)
  | x :: l' => inr (fold_left Rmax l' x)
  end.

Definition py_min (l : list R) : ResX R :=
  match l with
  | [] => inl (Builtin ValueError)
  | x :: l' => inr (fold_left Rmin l' x)
  end.

(** The loop of lines 57-58; [reward_entry] is the value of the dictionary
    under the key ['reward'], if it has that key. *)
Fixpoint rescale (reward_entry : option (list R)) (r_min r_max : R)
         (range : list nat) (rewards : list R) : ResX (list R) :=
  match range with
  | [] => inr rewards
  | i :: range' =>
      match reward_entry with
      | None => inl KeyError
      | Some col_reward =>
          x <-- lookupX col_reward i ;;
          rewards' <-- set_nth i ((x - r_min) / (r_max - r_min)) rewards ;;
          rescale reward_entry r_min r_max range' rewards'
      end
  end.

(** The function from the loaded dictionary on: [dataset] holds its
    columns, [reward_entry] its entry under ['reward'].  Returns [alpha]
    and the reward column. *)
Definition label_offline_reward (dataset : Dataset)
           (reward_entry : option (list R)) (policy : Model)
           (use_reward_scaling use_offline : bool) : ResX (R * list R) :=
  let n := length (observations dataset) in
  rewards1 <-- (if negb use_offline
                then relabel (discriminator policy) (observations dataset)
                             (actions dataset) (seq 0 n) (rewards dataset)
                else inr (rewards dataset)) ;;
  r_max <-- py_max rewards1 ;;
  r_min <-- py_min rewards1 ;;
  rewards2 <-- rescale reward_entry r_min r_max (seq 0 n) rewards1 ;;
  let alpha := 1 / (r_max - r_min) in
  let alpha := if negb use_reward_scaling then 1 else alpha in
  inr (alpha, rewards2).

(** ** Actor (lines 347-379) and select_action (lines 462-465) *)

Definition MEAN_MIN : R := -9.
Definition MEAN_MAX : R := 9.
Definition LOG_STD_MIN : R := -5.
Definition LOG_STD_MAX : R := 2.

Module Actor.

Record t : Type := mk {
  fc1 : Linear;
  fc2 : Linear;
  mu_head : Linear;
  sigma_head : Linear
}.

(** The parameters [mu] and [sigma] of the Normal under the tanh
    transform, and [a_tanh_mode]. *)
Record outputs : Type := mkOutputs {
  mu : list (list R);
  sigma : list (list R);
  a_tanh_mode : list (list R)
}.

Definition _get_outputs (self : t) (state : list (list R)) : outputs :=
  let a := map (fun x => map relu (linear (fc1 self) x)) state in
  let a := map (fun x => map relu (linear (fc2 self) x)) a in
  let mu := map (linear (mu_head self)) a in
  let mu := map (map (clip MEAN_MIN MEAN_MAX)) mu in
  let log_sigma := map (linear (sigma_head self)) a in
  let log_sigma := map (map (clip LOG_STD_MIN LOG_STD_MAX)) log_sigma in
  let sigma := map (map exp) log_sigma in
  mkOutputs mu sigma (map (map tanh) mu).

End Actor.

(** The two policies of the algorithm object; [policy_e] exists only when
    automatic alpha tuning is on. *)
Record Policies : Type := mkPolicies {
  policy : Actor.t;
  policy_e : option Actor.t
}.

(** [state.reshape(1, -1)], the third output of the chosen policy's
    forward pass, flattened. *)
Definition select_action (self : Policies) (state : list R)
           (is_policy_e : bool) : ResX (list R) :=
  let state := [state] in
  net <-- (if is_policy_e
           then match policy_e self with
                | Some p => inr p
                | None => inl AttributeError
                end
           else inr (policy self)) ;;
  let action := Actor.a_tanh_mode (Actor._get_outputs net state) in
  inr (concat action).

(** ** Predicates on the splitter's data *)

(** The transition the loop reads at row [i]. *)
Definition step_at (dataset : Dataset) (i : nat) : Step :=
  mkStep (nth i (observations dataset) [])
         (nth (i + 1) (observations dataset) [])
         (nth i (actions dataset) [])
         (nth i (rewards dataset) 0)
         (nth i (terminals dataset) false)
         (nth i (timeouts dataset) false).

(** [final_timestep] of line 163. *)
Definition final_timestep (st : Step) : bool := s_timeout st || s_done st.

(** A segment the loop has closed: it ends with its only final step. *)
Definition closed_segment (seg : list Step) : Prop :=
  exists init l,
    seg = init ++ [l] /\ final_timestep l = true
    /\ Forall (fun st => final_timestep st = false) init.

(** The five columns the loop reads have one entry per row. *)
Definition raw_columns_agree (dataset : Dataset) : Prop :=
  length (observations dataset) = length (rewards dataset) /\
  length (actions dataset) = length (rewards dataset) /\
  length (terminals dataset) = length (rewards dataset) /\
  length (timeouts dataset) = length (rewards dataset).

(** The six columns of a dataset have equally many rows. *)
Definition dataset_columns_agree (d : Dataset) : Prop :=
  length (actions d) = length (observations d) /\
  length (next_observations d) = length (observations d) /\
  length (rewards d) = length (observations d) /\
  length (terminals d) = length (observations d) /\
  length (timeouts d) = length (observations d).

(** The weight column during the rollback loop, before pass [passes]:
    a row outside the mask has the weight 0; a row in the mask has the
    weight 0 while no pass has run, and afterwards the value
    [weight_init * decay^j] of [weight_decay] in one of the passes run. *)
Definition on_schedule (weight_init decay : R) (passes : nat)
           (mask : list bool) (w : list R) : Prop :=
  forall i,
    (nth i mask false = false -> nth i w 0 = 0)
    /\ (nth i mask false = true ->
        (passes = 0%nat /\ nth i w 0 = 0)
        \/ exists j, (j < passes)%nat /\ nth i w 0 = weight_init * decay ^ j).


(** ** Further concrete data *)

(** [demo_model] with the standard loss. *)
Definition demo_model_standard : Model :=
  {| discriminator := demo_discriminator;
     no_pu_learning := true;
     eta := 0.5;
     alpha := 1;
     automatic_alpha_tuning := true;
     epsilon := 0.01;
     log_alpha := 0 |}.

(** An actor on one state coordinate with one action coordinate. *)
Definition demo_actor : Actor.t :=
  Actor.mk {| weight_of := [[1]]; bias_of := [0] |}
           {| weight_of := [[1]]; bias_of := [0] |}
           {| weight_of := [[20]]; bias_of := [0] |}
           {| weight_of := [[1]]; bias_of := [0] |}.

(** * Properties *)

(** ** Lists *)

Lemma zipWith_length {A B C : Type} (f : A -> B -> C) (l : list A)
      (m : list B) :
  length (zipWith f l m) = Nat.min (length l) (length m).
Proof.
  revert m; induction l as [|a l IH]; intros [|b m]; simpl; auto.
Qed.

Lemma bool_index_length {A : Type} (x : list A) (mask : list bool) :
  length mask = length x -> length (bool_index x mask) = count_true mask.
Proof.
  unfold count_true. revert mask.
  induction x as [|a x IH]; intros [|b mask] H; simpl in *; try discriminate; auto.
  destruct b; simpl; rewrite IH; auto.
Qed.

Lemma count_true_le (mask : list bool) :
  (count_true mask <= length mask)%nat.
Proof.
  unfold count_true. induction mask as [|b mask IH]; simpl; auto.
  destruct b; simpl; lia.
Qed.

Lemma take_rows_in_range {A : Type} (d : A) (x : list A) (ind : list nat) :
  Forall (fun i => (i < length x)%nat) ind ->
  take_rows x ind = ok (rows_at d x ind).
Proof.
  induction 1 as [|i ind Hi _ IH]; simpl; auto.
  destruct (nth_error x i) as [a|] eqn:E.
  - rewrite IH. simpl. unfold ok. do 2 f_equal.
    symmetry. apply nth_error_nth. exact E.
  - apply nth_error_None in E. lia.
Qed.

Lemma Forall_lt_le (n m : nat) (ind : list nat) :
  (n <= m)%nat -> Forall (fun i => (i < n)%nat) ind ->
  Forall (fun i => (i < m)%nat) ind.
Proof.
  intros Hnm H. eapply Forall_impl; [|exact H]. simpl. intros; lia.
Qed.

(** ** Comparisons *)

Lemma Rltb_true (x y : R) : x < y -> Rltb x y = true.
Proof. intros H. unfold Rltb. destruct (Rlt_dec x y); [reflexivity | lra]. Qed.

Lemma Rltb_false (x y : R) : y <= x -> Rltb x y = false.
Proof. intros H. unfold Rltb. destruct (Rlt_dec x y); [lra | reflexivity]. Qed.

Lemma Rleb_true (x y : R) : x <= y -> Rleb x y = true.
Proof. intros H. unfold Rleb. destruct (Rle_dec x y); [reflexivity | lra]. Qed.

Lemma Rleb_false (x y : R) : y < x -> Rleb x y = false.
Proof. intros H. unfold Rleb. destruct (Rle_dec x y); [lra | reflexivity]. Qed.

Lemma Reqb_refl (x : R) : Reqb x x = true.
Proof. unfold Reqb. destruct (Req_dec_T x x); congruence. Qed.

Lemma Reqb_neq (x y : R) : x <> y -> Reqb x y = false.
Proof. intros H. unfold Reqb. destruct (Req_dec_T x y); congruence. Qed.

(** ** Discriminator *)

Lemma clip_bounds (lo hi x : R) :
  lo <= hi -> lo <= clip lo hi x <= hi.
Proof.
  intros H. unfold clip, Rmin, Rmax.
  destruct (Rle_dec x lo); destruct (Rle_dec _ hi); lra.
Qed.

Lemma forward_rows (D : Discriminator) (state action : list (list R)) :
  length (forward D state action) = Nat.min (length state) (length action).
Proof.
  unfold forward, cat1. rewrite !length_map. apply zipWith_length.
Qed.

Lemma forward_width (D : Discriminator) (state action : list (list R)) :
  Forall (fun r => length r
                   = Nat.min (length (weight_of (fc3 D)))
                             (length (bias_of (fc3 D))))
         (forward D state action).
Proof.
  unfold forward.
  apply Forall_map, Forall_map, Forall_forall. intros x _.
  simpl. rewrite !length_map. unfold linear.
  rewrite zipWith_length, length_map. reflexivity.
Qed.

(** C9.  Whatever the parameters and the inputs, the forward pass returns
    one row per input row, each with one score per output unit of [fc3],
    and every score lies in [0.1, 0.9]; so both [d] and [1 - d] are
    positive and neither logarithm of the PU loss is taken at 0. *)
Theorem discriminator_output_clipped :
  forall (D : Discriminator) (state action : list (list R)),
    length (forward D state action) = Nat.min (length state) (length action)
    /\ Forall (fun r => length r
                        = Nat.min (length (weight_of (fc3 D)))
                                  (length (bias_of (fc3 D))))
              (forward D state action)
    /\ Forall (Forall (fun d => 0.1 <= d <= 0.9 /\ 0 < d /\ 0 < 1 - d))
              (forward D state action).
Proof.
  intros D state action.
  split; [apply forward_rows|]. split; [apply forward_width|].
  unfold forward.
  apply Forall_map. apply Forall_forall. intros row _.
  apply Forall_map. apply Forall_forall. intros d _.
  pose proof (@clip_bounds 0.1 0.9 d ltac:(lra)). lra.
Qed.

(** ** The example discriminator and buffer *)

Lemma sigmoid_above_half (z : R) : 0 <= z -> 0.5 <= sigmoid z.
Proof.
  intros Hz. unfold sigmoid.
  assert (He : 0 < exp (- z)) by apply exp_pos.
  assert (Hle : exp (- z) <= 1).
  { destruct Hz as [Hz|<-].
    - left. rewrite <- exp_0. apply exp_increasing. lra.
    - rewrite Ropp_0, exp_0. lra. }
  apply Rmult_le_reg_r with (1 + exp (- z)); [lra|].
  unfold Rdiv. rewrite Rmult_assoc, Rinv_l by lra. lra.
Qed.

Lemma sigmoid_below_half (z : R) : z < 0 -> sigmoid z < 0.5.
Proof.
  intros Hz. unfold sigmoid.
  assert (Hgt : 1 < exp (- z)).
  { rewrite <- exp_0. apply exp_increasing. lra. }
  apply Rmult_lt_reg_r with (1 + exp (- z)); [lra|].
  unfold Rdiv. rewrite Rmult_assoc, Rinv_l by lra. lra.
Qed.

Lemma score_passes (z : R) :
  0 <= z -> Rleb 0.5 (clip 0.1 0.9 (sigmoid z)) = true.
Proof.
  intros Hz. apply Rleb_true. pose proof (sigmoid_above_half Hz).
  unfold clip, Rmin, Rmax.
  destruct (Rle_dec (sigmoid z) 0.1); destruct (Rle_dec _ 0.9); lra.
Qed.

Lemma score_fails (z : R) :
  z < 0 -> Rleb 0.5 (clip 0.1 0.9 (sigmoid z)) = false.
Proof.
  intros Hz. apply Rleb_false. pose proof (sigmoid_below_half Hz).
  unfold clip, Rmin, Rmax.
  destruct (Rle_dec (sigmoid z) 0.1); destruct (Rle_dec _ 0.9); lra.
Qed.

Lemma relu_nonneg (x : R) : 0 <= x -> relu x = x.
Proof.
  intros H. unfold relu, Rmax. destruct (Rle_dec 0 x); lra.
Qed.

(** Evaluates [relu] at non-negative arguments, innermost first. *)
Ltac relu_eval :=
  repeat match goal with
         | |- context [relu ?x] =>
             lazymatch x with
             | context [relu _] => fail
             | _ => rewrite (@relu_nonneg x) by lra
             end
         end.

Lemma demo_scores :
  ge_mask (forward demo_discriminator (state demo_buffer)
                   (action demo_buffer)) 0.5
  = [false; false; true].
Proof.
  unfold ge_mask, forward, cat1, linear, dot. simpl.
  f_equal; [apply score_fails
           | f_equal; [apply score_fails | f_equal; apply score_passes]];
    relu_eval; lra.
Qed.

Lemma boundaries_single_trajectory (nd0 nd1 t0 t1 t2 : R) :
  nd0 <> 0 -> nd1 <> 0 -> t0 <> 1 -> t1 <> 1 ->
  boundaries [nd0; nd1; 0] [t0; t1; t2] = [3%nat].
Proof.
  intros. unfold boundaries, episode_ends. simpl.
  rewrite (@Reqb_neq nd0 0), (@Reqb_neq nd1 0), (@Reqb_neq t0 1),
    (@Reqb_neq t1 1), Reqb_refl by assumption.
  reflexivity.
Qed.

Lemma demo_first_pass :
  rollback_iter demo_model (state demo_buffer) (action demo_buffer)
                (boundaries [1; 1; 0] [0; 0; 0]) 0.5 0.5 0
                ([false; false; true], [0; 0; 0], 1)
  = ok ([false; true; true], [0; 1; 1], 1 * 0.5).
Proof.
  rewrite boundaries_single_trajectory by lra.
  unfold rollback_iter, call_discriminator. cbn [bind ok].
  change (discriminator demo_model) with demo_discriminator.
  rewrite demo_scores. simpl. unfold raise_weights. simpl.
  rewrite (@Rltb_true 0 1) by lra. reflexivity.
Qed.

Lemma demo_buffer_columns : columns_match_size demo_buffer.
Proof. unfold columns_match_size. simpl. repeat split; reflexivity. Qed.

Lemma demo_buffer_covered : columns_cover_size demo_buffer.
Proof. unfold columns_cover_size; simpl; lia. Qed.

(** ** The base mask of select_data *)

(** C2.  Line 496 calls the discriminator with the next states alone; the
    forward pass takes a state and an action, so the call raises TypeError
    and [select_data] returns no base mask, for every model, buffer and
    threshold. *)
Theorem select_data_base_mask_type_error :
  forall (self : Model) (replay_buffer_s : ReplayBuffer) (bar : R)
         (rollback : nat) (decay weight_init : R),
    select_data self replay_buffer_s bar rollback decay weight_init
    = raise TypeError.
Proof.
  intros. reflexivity.
Qed.

(** ** Sampling *)

Lemma randint_empty_range (rng : nat -> nat) (low high n : nat) :
  (high <= low)%nat -> randint rng low high n = raise RuntimeError.
Proof.
  intros H. unfold randint.
  destruct (Nat.ltb_spec low high); [lia | reflexivity].
Qed.

Lemma randint_in_range (rng : nat -> nat) (low high n : nat) :
  (low < high)%nat ->
  exists ind, randint rng low high n = ok ind /\ length ind = n /\
              Forall (fun i => (low <= i < high)%nat) ind.
Proof.
  intros H. unfold randint.
  destruct (Nat.ltb_spec low high); [|lia].
  eexists; split; [reflexivity|]. split.
  - rewrite length_map, length_seq. reflexivity.
  - apply Forall_map, Forall_forall. intros j _.
    pose proof (Nat.mod_upper_bound (rng j) (high - low)). lia.
Qed.

Lemma sample_empty (rng : nat -> nat) (self : ReplayBuffer) (batch_size : nat) :
  size self = 0%nat -> sample rng self batch_size = raise RuntimeError.
Proof.
  intros H. unfold sample. rewrite randint_empty_range by lia. reflexivity.
Qed.

Lemma index_batch_in_range (self : ReplayBuffer) (ind : list nat) :
  columns_cover_size self ->
  Forall (fun i => (i < size self)%nat) ind ->
  index_batch self ind
  = ok (mkBatch (rows_at [] (state self) ind) (rows_at [] (action self) ind)
                (rows_at [] (next_state self) ind)
                (rows_at 0 (reward self) ind) (rows_at 0 (not_done self) ind)
                (rows_at 0 (flag self) ind) (rows_at 0 (weight self) ind)
                (rows_at 0 (timeout self) ind)).
Proof.
  intros (H1 & H2 & H3 & H4 & H5 & H6 & H7 & H8) Hind.
  unfold index_batch.
  rewrite (take_rows_in_range [] (state self)) by (eapply Forall_lt_le; eauto).
  rewrite (take_rows_in_range [] (action self)) by (eapply Forall_lt_le; eauto).
  rewrite (take_rows_in_range [] (next_state self))
    by (eapply Forall_lt_le; eauto).
  rewrite (take_rows_in_range 0 (reward self)) by (eapply Forall_lt_le; eauto).
  rewrite (take_rows_in_range 0 (not_done self))
    by (eapply Forall_lt_le; eauto).
  rewrite (take_rows_in_range 0 (flag self)) by (eapply Forall_lt_le; eauto).
  rewrite (take_rows_in_range 0 (weight self)) by (eapply Forall_lt_le; eauto).
  rewrite (take_rows_in_range 0 (timeout self))
    by (eapply Forall_lt_le; eauto).
  reflexivity.
Qed.

Lemma sample_nonempty (rng : nat -> nat) (self : ReplayBuffer)
      (batch_size : nat) :
  (1 <= size self)%nat -> columns_cover_size self ->
  exists ind,
    length ind = batch_size /\
    Forall (fun i => (i < size self)%nat) ind /\
    sample rng self batch_size
    = ok (mkBatch (rows_at [] (state self) ind) (rows_at [] (action self) ind)
                  (rows_at [] (next_state self) ind)
                  (rows_at 0 (reward self) ind)
                  (rows_at 0 (not_done self) ind)
                  (rows_at 0 (flag self) ind) (rows_at 0 (weight self) ind)
                  (rows_at 0 (timeout self) ind)).
Proof.
  intros Hsize Hcov.
  destruct (@randint_in_range rng 0%nat (size self) batch_size ltac:(lia))
    as (ind & Hr & Hlen & Hall).
  assert (Hlt : Forall (fun i => (i < size self)%nat) ind).
  { eapply Forall_impl; [|exact Hall]. simpl. intros; lia. }
  exists ind. split; [exact Hlen|]. split; [exact Hlt|].
  unfold sample. rewrite Hr. simpl.
  apply index_batch_in_range; assumption.
Qed.

(** C10.  On a freshly constructed buffer [sample] raises for every batch
    size, the index range [0, size) being empty.  On a buffer with
    [size >= 1] whose columns hold at least [size] rows, [sample] returns:
    it draws [batch_size] indices, each below [size], and every column of
    the batch is the buffer column read at those indices. *)
Theorem sample_requires_nonempty_buffer :
  forall (rng : nat -> nat) (state_dim action_dim capacity : nat)
         (self : ReplayBuffer) (batch_size : nat),
    (1 <= size self)%nat ->
    columns_cover_size self ->
    sample rng (ReplayBuffer_init state_dim action_dim capacity) batch_size
    = raise RuntimeError
    /\ exists ind,
         length ind = batch_size /\
         Forall (fun i => (i < size self)%nat) ind /\
         sample rng self batch_size
         = ok (mkBatch (rows_at [] (state self) ind)
                       (rows_at [] (action self) ind)
                       (rows_at [] (next_state self) ind)
                       (rows_at 0 (reward self) ind)
                       (rows_at 0 (not_done self) ind)
                       (rows_at 0 (flag self) ind)
                       (rows_at 0 (weight self) ind)
                       (rows_at 0 (timeout self) ind)).
Proof.
  intros rng sd ad cap self batch_size Hsize Hcov. split.
  - apply sample_empty. reflexivity.
  - apply sample_nonempty; assumption.
Qed.

Lemma sample_requires_nonempty_buffer_witness :
  sample demo_rng (ReplayBuffer_init 1 1 100) 2 = raise RuntimeError
  /\ exists ind,
       length ind = 2%nat /\
       Forall (fun i => (i < size demo_buffer)%nat) ind /\
       sample demo_rng demo_buffer 2
       = ok (mkBatch (rows_at [] (state demo_buffer) ind)
                     (rows_at [] (action demo_buffer) ind)
                     (rows_at [] (next_state demo_buffer) ind)
                     (rows_at 0 (reward demo_buffer) ind)
                     (rows_at 0 (not_done demo_buffer) ind)
                     (rows_at 0 (flag demo_buffer) ind)
                     (rows_at 0 (weight demo_buffer) ind)
                     (rows_at 0 (timeout demo_buffer) ind)).
Proof.
  apply (@sample_requires_nonempty_buffer demo_rng 1 1 100 demo_buffer 2).
  - simpl. lia.
  - exact demo_buffer_covered.
Defined.

(** ** Elementwise operations on tensors of equal shape *)

Lemma same_shape_length (m1 m2 : list (list R)) :
  same_shape m1 m2 -> length m1 = length m2.
Proof. induction 1; simpl; congruence. Qed.

Lemma same_shape_concat (m1 m2 : list (list R)) :
  same_shape m1 m2 -> length (concat m1) = length (concat m2).
Proof.
  induction 1; simpl; auto. rewrite !length_app. congruence.
Qed.

Lemma same_shape_map (g h : R -> R) (m1 m2 : list (list R)) :
  same_shape m1 m2 -> same_shape (map (map g) m1) (map (map h) m2).
Proof.
  induction 1; simpl; constructor; auto. rewrite !length_map. assumption.
Qed.

Lemma same_shape_zipWith (f : R -> R -> R) (m1 m2 : list (list R)) :
  same_shape m1 m2 -> same_shape m1 (zipWith (zipWith f) m1 m2).
Proof.
  induction 1; simpl; constructor; auto.
  rewrite zipWith_length. lia.
Qed.

Lemma same_shape_of_width (w : nat) (m1 m2 : list (list R)) :
  length m1 = length m2 ->
  Forall (fun r => length r = w) m1 -> Forall (fun r => length r = w) m2 ->
  same_shape m1 m2.
Proof.
  revert m2. induction m1 as [|r1 m1 IH]; intros [|r2 m2] Hlen H1 H2;
    simpl in *; try discriminate; constructor.
  - inversion H1; inversion H2; congruence.
  - apply IH; [lia | inversion H1; auto | inversion H2; auto].
Qed.

Lemma zipWith_app {A B C : Type} (f : A -> B -> C) (l1 l2 : list A)
      (m1 m2 : list B) :
  length l1 = length m1 ->
  zipWith f (l1 ++ l2) (m1 ++ m2) = zipWith f l1 m1 ++ zipWith f l2 m2.
Proof.
  revert m1. induction l1 as [|a l1 IH]; intros [|b m1] H; simpl in *;
    try discriminate; auto.
  rewrite IH by lia. reflexivity.
Qed.

Lemma zipWith_ext {A B C : Type} (f g : A -> B -> C) (l : list A)
      (m : list B) :
  (forall a b, f a b = g a b) -> zipWith f l m = zipWith g l m.
Proof.
  intros H. revert m. induction l as [|a l IH]; intros [|b m]; simpl; auto.
  rewrite H, IH. reflexivity.
Qed.

Lemma zipWith_map {A A' B B' C : Type} (f : A' -> B' -> C) (g : A -> A')
      (h : B -> B') (l : list A) (m : list B) :
  zipWith f (map g l) (map h m) = zipWith (fun a b => f (g a) (h b)) l m.
Proof.
  revert m. induction l as [|a l IH]; intros [|b m]; simpl; auto.
  rewrite IH. reflexivity.
Qed.

Lemma concat_zipWith (f : R -> R -> R) (m1 m2 : list (list R)) :
  same_shape m1 m2 ->
  concat (zipWith (zipWith f) m1 m2) = zipWith f (concat m1) (concat m2).
Proof.
  induction 1 as [|r1 r2 m1 m2 Hr _ IH]; simpl; auto.
  rewrite zipWith_app by assumption. rewrite IH. reflexivity.
Qed.

Lemma bcast_row_same (f : R -> R -> R) (r1 r2 : list R) :
  length r1 = length r2 -> bcast_row f r1 r2 = ok (zipWith f r1 r2).
Proof.
  intros H. unfold bcast_row. rewrite H, Nat.eqb_refl. reflexivity.
Qed.

Lemma rows_same_shape (f : R -> R -> R) (m1 m2 : list (list R)) :
  same_shape m1 m2 -> rows_same f m1 m2 = ok (zipWith (zipWith f) m1 m2).
Proof.
  induction 1 as [|r1 r2 m1 m2 Hr _ IH]; simpl; auto.
  rewrite bcast_row_same by assumption. simpl. rewrite IH. reflexivity.
Qed.

Lemma bcast_mat_same_shape (f : R -> R -> R) (m1 m2 : list (list R)) :
  same_shape m1 m2 -> bcast_mat f m1 m2 = ok (zipWith (zipWith f) m1 m2).
Proof.
  intros H. unfold bcast_mat.
  rewrite (same_shape_length H), Nat.eqb_refl.
  apply rows_same_shape. assumption.
Qed.

Lemma t_bin_same_shape (f : R -> R -> R) (m1 m2 : list (list R)) :
  same_shape m1 m2 ->
  t_bin f (T2 m1) (T2 m2) = ok (T2 (zipWith (zipWith f) m1 m2)).
Proof.
  intros H. simpl. rewrite bcast_mat_same_shape by assumption. reflexivity.
Qed.

Lemma zipWith_three (a b c : R -> R) (E S : list R) :
  zipWith Rplus (map a E) (zipWith Rplus (map b S) (map c E))
  = zipWith (fun e s => a e + (b s + c e)) E S.
Proof.
  revert S. induction E as [|e E IH]; intros [|s S]; simpl; auto.
  rewrite IH. reflexivity.
Qed.

Lemma take_rows_length {A : Type} (x : list A) (ind : list nat) (r : list A) :
  take_rows x ind = ok r -> length r = length ind.
Proof.
  revert r. induction ind as [|i ind IH]; simpl; intros r H.
  - inversion H. reflexivity.
  - destruct (nth_error x i); [|discriminate].
    destruct (take_rows x ind) as [e|rest]; simpl in H; [discriminate|].
    inversion H. simpl. rewrite (IH rest); reflexivity.
Qed.

Lemma sample_batch_rows (rng : nat -> nat) (self : ReplayBuffer)
      (batch_size : nat) (b : Batch) :
  sample rng self batch_size = ok b ->
  length (b_state b) = batch_size /\ length (b_action b) = batch_size /\
  length (b_weight b) = batch_size.
Proof.
  unfold sample, randint.
  destruct (0 <? size self)%nat; simpl; [|discriminate].
  set (ind := map _ _).
  assert (Hlen : length ind = batch_size)
    by (unfold ind; rewrite length_map, length_seq; reflexivity).
  unfold index_batch.
  destruct (take_rows (state self) ind) as [|s] eqn:Es; simpl; [discriminate|].
  destruct (take_rows (action self) ind) as [|a] eqn:Ea; simpl;
    [discriminate|].
  destruct (take_rows (next_state self) ind); simpl; [discriminate|].
  destruct (take_rows (reward self) ind); simpl; [discriminate|].
  destruct (take_rows (not_done self) ind); simpl; [discriminate|].
  destruct (take_rows (flag self) ind); simpl; [discriminate|].
  destruct (take_rows (weight self) ind) as [|w] eqn:Ew; simpl;
    [discriminate|].
  destruct (take_rows (timeout self) ind); simpl; [discriminate|].
  intros H. inversion H. simpl.
  rewrite (take_rows_length _ _ Es), (take_rows_length _ _ Ea),
    (take_rows_length _ _ Ew). auto.
Qed.

(** ** The discriminator loss *)

Lemma map_rows_compose (f g : R -> R) (m : list (list R)) :
  map (map f) (map (map g) m) = map (map (fun x => f (g x))) m.
Proof.
  rewrite map_map. apply map_ext. intros r. apply map_map.
Qed.

Lemma concat_map_rows (f : R -> R) (m : list (list R)) :
  concat (map (map f) m) = map f (concat m).
Proof. symmetry. apply concat_map. Qed.

Lemma d_loss_same_shape (self : Model) (d_e d_s : list (list R)) :
  same_shape d_e d_s ->
  d_loss self (T2 d_e) (T2 d_s)
  = ok (spec_d_loss (no_pu_learning self) (eta self)
                    (concat d_e) (concat d_s)).
Proof.
  intros Hs. pose proof (same_shape_concat Hs) as Hlen.
  unfold d_loss, spec_d_loss, t_add, t_neg, t_log.
  destruct (no_pu_learning self); simpl t_map.
  - rewrite !map_rows_compose.
    rewrite t_bin_same_shape by (apply same_shape_map; assumption).
    simpl. unfold ok. f_equal. unfold t_mean. simpl entries.
    rewrite concat_zipWith by (apply same_shape_map; assumption).
    rewrite !concat_map_rows, zipWith_map.
    rewrite zipWith_length, <- Hlen, Nat.min_id.
    rewrite (@zipWith_ext _ _ _ (fun a b => - ln a + - ln (1 - b))
                          (fun e s => - ln e - ln (1 - s)))
      by (intros; lra).
    reflexivity.
  - rewrite !map_rows_compose.
    assert (Hse : same_shape d_s d_e).
    { clear -Hs. induction Hs; constructor; auto. }
    rewrite (@t_bin_same_shape Rplus
               (map (map (fun x => - ln (1 - x) / eta self)) d_s)
               (map (map (fun x => ln (1 - x))) d_e))
      by (apply same_shape_map; assumption).
    simpl bind.
    assert (Hin : same_shape
                    (map (map (fun x => - ln x)) d_e)
                    (zipWith (zipWith Rplus)
                       (map (map (fun x => - ln (1 - x) / eta self)) d_s)
                       (map (map (fun x => ln (1 - x))) d_e))).
    { clear -Hs Hse.
      revert Hse. induction Hs as [|r1 r2 m1 m2 Hr _ IH]; intros Hse;
        simpl; constructor.
      - rewrite zipWith_length, !length_map. lia.
      - apply IH. inversion Hse; assumption. }
    rewrite bcast_mat_same_shape by assumption.
    simpl. unfold ok. f_equal. unfold t_mean. simpl entries.
    rewrite concat_zipWith by assumption.
    rewrite concat_zipWith by (apply same_shape_map; assumption).
    rewrite !concat_map_rows, zipWith_three.
    rewrite zipWith_length, <- Hlen, Nat.min_id.
    rewrite (@zipWith_ext _ _ _
               (fun e s => - ln e + (- ln (1 - s) / eta self + ln (1 - e)))
               (fun e s => - ln e - ln (1 - s) / eta self + ln (1 - e)))
      by (intros; unfold Rdiv; ring).
    reflexivity.
Qed.

(** C1.  A step of [train_discriminator] whose two minibatches were drawn
    computes, on the clipped scores [d_e] and [d_s] of the discriminator,
    [mean(-log(d_e) - log(1-d_s))] when [no_pu] is set and
    [mean(-log(d_e) - log(1-d_s)/eta + log(1-d_e))] otherwise. *)
Theorem train_discriminator_loss_as_specified :
  forall (rng_e rng_s : nat -> nat) (self : Model)
         (replay_buffer_e replay_buffer_s : ReplayBuffer) (batch_size : nat)
         (be bs : Batch),
    sample rng_e replay_buffer_e batch_size = ok be ->
    sample rng_s replay_buffer_s batch_size = ok bs ->
    train_discriminator_loss rng_e rng_s self replay_buffer_e replay_buffer_s
                             batch_size
    = ok (spec_d_loss
            (no_pu_learning self) (eta self)
            (concat (forward (discriminator self) (b_state be) (b_action be)))
            (concat (forward (discriminator self) (b_state bs)
                             (b_action bs)))).
Proof.
  intros rng_e rng_s self rbe rbs B be bs He Hs.
  unfold train_discriminator_loss. rewrite He, Hs. simpl.
  apply d_loss_same_shape.
  destruct (sample_batch_rows _ _ _ He) as (E1 & E2 & _).
  destruct (sample_batch_rows _ _ _ Hs) as (S1 & S2 & _).
  eapply same_shape_of_width; [| apply forward_width | apply forward_width].
  rewrite !forward_rows. lia.
Qed.

Lemma train_discriminator_loss_as_specified_witness :
  train_discriminator_loss demo_rng demo_rng demo_model demo_buffer
                           demo_buffer 2
  = ok (spec_d_loss
          false 0.5
          (concat (forward demo_discriminator [[0]; [0]] [[0]; [0]]))
          (concat (forward demo_discriminator [[0]; [0]] [[0]; [0]]))).
Proof.
  exact (@train_discriminator_loss_as_specified
           demo_rng demo_rng demo_model demo_buffer demo_buffer 2
           (mkBatch [[0]; [0]] [[0]; [0]] [[0]; [2]] [0; 0] [1; 1] [0; 0]
                    [1; 1] [0; 0])
           (mkBatch [[0]; [0]] [[0]; [0]] [[0]; [2]] [0; 0] [1; 1] [0; 0]
                    [1; 1] [0; 0])
           eq_refl eq_refl).
Defined.

(** ** The policy losses *)

Lemma alpha_and_alpha_loss_value (self : Model) (log_pi log_pi_e : Tensor) :
  alpha_and_alpha_loss self log_pi log_pi_e
  = (exp (log_alpha self),
     exp (log_alpha self)
     * (t_mean log_pi + epsilon self - t_mean log_pi_e))
  /\ 0 < exp (log_alpha self).
Proof.
  split; [reflexivity | apply exp_pos].
Qed.

(** ** The weighted term of the policy loss, in general *)

Lemma bcast_row_column_entry (v : list R) (wj : R) :
  bcast_row Rmult v [wj] = ok (map (fun x => x * wj) v).
Proof.
  unfold bcast_row. simpl length.
  destruct v as [|v0 [|v1 v]]; simpl; reflexivity.
Qed.

Lemma rows_left_column (v w : list R) :
  rows_left Rmult v (col w) = ok (map (fun wj => map (fun x => x * wj) v) w).
Proof.
  induction w as [|wj w IH]; [reflexivity|].
  change (col (wj :: w)) with ([wj] :: col w).
  cbn [rows_left]. rewrite bcast_row_column_entry, IH. reflexivity.
Qed.

Lemma vector_times_column (v w : list R) :
  t_mul (T1 v) (T2 (col w))
  = ok (T2 (map (fun wj => map (fun x => x * wj) v) w)).
Proof.
  unfold t_mul. simpl. unfold bcast_mat. simpl length.
  destruct w as [|w0 [|w1 w]].
  - reflexivity.
  - simpl. rewrite bcast_row_column_entry. reflexivity.
  - change (hd [] [v]) with v.
    destruct (length (col (w0 :: w1 :: w))) as [|[|n]] eqn:E;
      simpl in E; try discriminate.
    simpl Nat.eqb. rewrite rows_left_column. reflexivity.
Qed.

Lemma Rsum_app (l m : list R) : Rsum (l ++ m) = Rsum l + Rsum m.
Proof.
  unfold Rsum. induction l as [|a l IH]; simpl; [lra | rewrite IH; lra].
Qed.

Lemma Rsum_scale (v : list R) (c : R) :
  Rsum (map (fun x => x * c) v) = Rsum v * c.
Proof.
  unfold Rsum. induction v as [|a v IH]; simpl; [lra | rewrite IH; lra].
Qed.

Lemma outer_product_sum (v w : list R) :
  Rsum (concat (map (fun wj => map (fun x => x * wj) v) w))
  = Rsum v * Rsum w.
Proof.
  induction w as [|wj w IH]; simpl.
  - change (Rsum []) with 0. lra.
  - rewrite Rsum_app, Rsum_scale, IH.
    change (Rsum (wj :: w)) with (wj + Rsum w). lra.
Qed.

Lemma outer_product_numel (v w : list R) :
  length (concat (map (fun wj => map (fun x => x * wj) v) w))
  = (length w * length v)%nat.
Proof.
  induction w as [|wj w IH]; simpl; auto.
  rewrite length_app, length_map, IH. reflexivity.
Qed.

(** The D_s term of line 552 for any minibatch: the sum over the whole
    table of products, divided by the number of its entries; for a batch
    of B rows this is the mean of the B negative log-likelihoods times the
    mean of the B weights. *)
Lemma policy_loss_weighted_term (log_pi_s : list (list R)) (weight_s : list R) :
  exists weighted,
    t_mul (t_neg (t_sum1 log_pi_s)) (T2 (col weight_s)) = ok weighted
    /\ t_mean weighted
       = Rsum (map (fun row => - Rsum row) log_pi_s) * Rsum weight_s
         / INR (length weight_s * length log_pi_s).
Proof.
  unfold t_neg, t_sum1. simpl t_map.
  rewrite vector_times_column. eexists; split; [reflexivity|].
  unfold t_mean. simpl entries.
  rewrite outer_product_sum, outer_product_numel, !length_map, map_map.
  reflexivity.
Qed.

(** C7.  On a minibatch of two transitions with summed log densities
    [-1, -3] and weights [1, 0.5], and a D_e minibatch of log density 0,
    [train_policy] returns alpha = exp(0) and the alpha loss of the
    formula, but its policy loss is 3/2: the vector of shape (2,) meets the
    weight column of shape (2, 1) as a 2 x 2 table, whose mean is the
    product of the two means.  The per-sample weighted loss is 5/4. *)
Theorem train_policy_loss_not_per_sample :
  exists (a alpha_loss p_loss : R),
    train_policy_losses demo_model [[-1]; [-3]] [[0]; [0]] [[0]; [0]] [1; 0.5]
    = ok (a, Some alpha_loss, p_loss)
    /\ a = 1
    /\ alpha_loss = a * (0 + 0.01 - 0)
    /\ p_loss = 3 / 2
    /\ spec_policy_loss a [[-1]; [-3]] [[0]; [0]] [1; 0.5] = 5 / 4
    /\ p_loss <> spec_policy_loss a [[-1]; [-3]] [[0]; [0]] [1; 0.5].
Proof.
  do 3 eexists. split; [reflexivity|].
  unfold spec_policy_loss, t_mean. simpl. rewrite exp_0.
  repeat split; lra.
Qed.

(** ** The rollback loop: weights *)

Lemma zipWith_nth_error {A B C : Type} (f : A -> B -> C) (l : list A)
      (m : list B) (i : nat) :
  nth_error (zipWith f l m) i
  = match nth_error l i, nth_error m i with
    | Some a, Some b => Some (f a b)
    | _, _ => None
    end.
Proof.
  revert m i. induction l as [|a l IH]; intros [|b m] [|i]; simpl; auto.
  destruct (nth_error l i); reflexivity.
Qed.

Lemma raise_weights_monotone (mask : list bool) (w w' : list R) (wd : R) :
  raise_weights mask w wd = ok w' ->
  length w' = length w /\
  forall i x, nth_error w i = Some x ->
    exists y, nth_error w' i = Some y /\ x <= y /\
              (y = x \/ (x < wd /\ y = wd)).
Proof.
  unfold raise_weights.
  destruct (Nat.eqb_spec (length mask) (length w)) as [Hlen|]; [|discriminate].
  intros H. inversion H; subst w'; clear H. split.
  - rewrite zipWith_length. lia.
  - intros i x Hx. rewrite zipWith_nth_error, Hx.
    destruct (nth_error mask i) as [b|] eqn:Eb.
    + eexists; split; [reflexivity|].
      unfold Rltb. destruct b; simpl; [|lra].
      destruct (Rlt_dec x wd); lra.
    + apply nth_error_None in Eb.
      assert (i < length w)%nat by (apply nth_error_Some; congruence). lia.
Qed.

Lemma rollback_loop_app (self : Model) (state action : list (list R))
      (done : list nat) (bar decay : R) (ks1 ks2 : list nat)
      (st : list bool * list R * R) :
  rollback_loop self state action done bar decay (ks1 ++ ks2) st
  = (st' <- rollback_loop self state action done bar decay ks1 st ;;
     rollback_loop self state action done bar decay ks2 st').
Proof.
  revert st. induction ks1 as [|k ks1 IH]; intros st; simpl; auto.
  destruct (rollback_iter self state action done bar decay k st); simpl; auto.
Qed.

Lemma rollback_iter_decay (self : Model) (state action : list (list R))
      (done : list nat) (bar decay : R) (k : nat) (mask mask' : list bool)
      (w w' : list R) (wd wd' : R) :
  rollback_iter self state action done bar decay k (mask, w, wd)
  = ok (mask', w', wd') ->
  wd' = wd * decay /\
  exists mask1, raise_weights mask1 w wd = ok w'.
Proof.
  unfold rollback_iter. simpl.
  destruct (or_shift k mask _) as [|mask1]; simpl; [discriminate|].
  destruct (raise_weights mask1 w wd) as [|w1] eqn:Ew; simpl; [discriminate|].
  intros H. inversion H; subst. split; [reflexivity|].
  exists mask'. assumption.
Qed.

Lemma rollback_loop_decay (self : Model) (state action : list (list R))
      (done : list nat) (bar decay : R) (n a : nat) (mask mask' : list bool)
      (w w' : list R) (wd wd' : R) :
  rollback_loop self state action done bar decay (seq a n) (mask, w, wd)
  = ok (mask', w', wd') ->
  wd' = wd * decay ^ n.
Proof.
  revert a mask w wd. induction n as [|n IH]; intros a mask w wd; simpl.
  - intros H. inversion H. lra.
  - destruct (rollback_iter self state action done bar decay a (mask, w, wd))
      as [|[[m1 w1] wd1]] eqn:E; simpl; [discriminate|].
    intros H. apply IH in H. apply rollback_iter_decay in E.
    destruct E as [E _]. subst. lra.
Qed.

(** C5.  Let the loop have run its passes 0..k-1 and then pass k.  Pass k
    works with [weight_decay = weight_init * decay^k]; it keeps the number
    of weights, and each weight after the pass is at least its value
    before: it is either unchanged or it was strictly below
    [weight_init * decay^k] and is now equal to it. *)
Theorem rollback_weights_monotone :
  forall (self : Model) (state action : list (list R)) (done : list nat)
         (bar decay weight_init : R) (k : nat)
         (mask0 mask mask' : list bool) (w0 w w' : list R) (wd wd' : R),
    rollback_loop self state action done bar decay (seq 0 k)
                  (mask0, w0, weight_init) = ok (mask, w, wd) ->
    rollback_loop self state action done bar decay (seq 0 (S k))
                  (mask0, w0, weight_init) = ok (mask', w', wd') ->
    wd = weight_init * decay ^ k /\
    length w' = length w /\
    forall i x, nth_error w i = Some x ->
      exists y, nth_error w' i = Some y /\ x <= y /\
                (y = x \/ (x < weight_init * decay ^ k
                           /\ y = weight_init * decay ^ k)).
Proof.
  intros self state action done bar decay weight_init k mask0 mask mask'
         w0 w w' wd wd' Hk HSk.
  pose proof Hk as Hwd. apply rollback_loop_decay in Hwd.
  split; [exact Hwd|].
  rewrite seq_S, rollback_loop_app, Hk in HSk. simpl in HSk.
  destruct (rollback_iter self state action done bar decay k (mask, w, wd))
    as [|[[m1 w1] wd1]] eqn:E; simpl in HSk; [discriminate|].
  inversion HSk; subst m1 w1 wd1; clear HSk.
  apply rollback_iter_decay in E. destruct E as [_ [mask1 E]].
  rewrite <- Hwd. eapply raise_weights_monotone; eassumption.
Qed.

Lemma rollback_weights_monotone_witness :
  1 = 1 * 0.5 ^ 0 /\
  length [0; 1; 1] = length [0; 0; 0] /\
  forall i x, nth_error [0; 0; 0] i = Some x ->
    exists y, nth_error [0; 1; 1] i = Some y /\ x <= y /\
              (y = x \/ (x < 1 * 0.5 ^ 0 /\ y = 1 * 0.5 ^ 0)).
Proof.
  apply (@rollback_weights_monotone
           demo_model (state demo_buffer) (action demo_buffer)
           (boundaries [1; 1; 0] [0; 0; 0]) 0.5 0.5 1 0
           [false; false; true] [false; false; true] [false; true; true]
           [0; 0; 0] [0; 0; 0] [0; 1; 1] 1 (1 * 0.5)).
  - reflexivity.
  - unfold rollback_loop, seq. rewrite demo_first_pass. reflexivity.
Defined.

(** ** The rollback loop: masks *)

Lemma clear_range_length (pos start stop : nat) (index : list bool) :
  length (clear_range pos start stop index) = length index.
Proof.
  revert pos. induction index as [|b index IH]; intros pos; simpl; auto.
Qed.

Lemma clear_heads_length (k : nat) (done : list nat) (start : nat)
      (index : list bool) :
  length (clear_heads k done start index) = length index.
Proof.
  revert start index. induction done as [|e done IH]; intros start index;
    simpl; auto.
  rewrite IH. apply clear_range_length.
Qed.

Lemma clear_range_nth (pos start stop : nat) (index : list bool) (j : nat) :
  nth j (clear_range pos start stop index) false
  = (if (start <=? pos + j)%nat && (pos + j <? stop)%nat then false
     else nth j index false).
Proof.
  revert pos j. induction index as [|b index IH]; intros pos j; simpl.
  - destruct j; destruct (_ && _); reflexivity.
  - destruct j as [|j].
    + rewrite Nat.add_0_r. reflexivity.
    + rewrite IH. replace (S pos + j)%nat with (pos + S j)%nat by lia.
      reflexivity.
Qed.

Lemma clear_heads_nth (k : nat) (done : list nat) (start : nat)
      (index : list bool) (j : nat) :
  nth j (clear_heads k done start index) false = true ->
  nth j index false = true /\ outside_heads k start done j.
Proof.
  revert start index. induction done as [|e done IH]; intros start index;
    simpl; auto.
  intros H. apply IH in H. destruct H as [H Hout].
  rewrite clear_range_nth in H. simpl in H.
  destruct (Nat.leb_spec start j); destruct (Nat.ltb_spec j (Nat.min e (start + k + 1)));
    simpl in H; try discriminate; (split; [assumption|]); (split; [lia | assumption]).
Qed.

Lemma where_true_trajectory (k : nat) (ends : list bool) :
  forall off start j,
    (start <= off)%nat -> (start <= j)%nat ->
    (j < off + length ends)%nat ->
    last ends false = true ->
    outside_heads k start
                  (map (fun i => (i + 1)%nat) (where_true off ends)) j ->
    (k + 1 <= j)%nat /\
    forall p, (j - (k + 1) <= p < j)%nat ->
              (start <= p)%nat /\
              ((off <= p)%nat -> nth (p - off) ends false = false).
Proof.
  induction ends as [|b r IH]; intros off start j Hso Hsj Hj Hlast Hout.
  - simpl in Hlast. discriminate.
  - simpl in Hj. destruct b.
    + simpl in Hout. destruct Hout as [Hhead Hrest].
      destruct (Nat.le_gt_cases j off) as [Hle|Hgt].
      * split; [lia|]. intros p Hp. split; [lia|]. intros; lia.
      * assert (Hr : r <> []) by (destruct r; simpl in *; [lia | discriminate]).
        assert (Hlast' : last r false = true).
        { destruct r; [congruence | exact Hlast]. }
        replace (off + 1)%nat with (S off) in Hrest by lia.
        destruct (IH (S off) (S off) j ltac:(lia) ltac:(lia) ltac:(lia)
                     Hlast' Hrest) as [Hk Hp].
        split; [exact Hk|]. intros p Hpr.
        destruct (Hp p Hpr) as [Hsp Hnth]. split; [lia|]. intros _.
        replace (p - off)%nat with (S (p - S off)) by lia. simpl.
        apply Hnth. lia.
    + simpl in Hout.
      assert (Hlast' : last r false = true).
      { destruct r; [simpl in Hlast; discriminate | exact Hlast]. }
      destruct (IH (S off) start j ltac:(lia) Hsj ltac:(lia) Hlast' Hout)
        as [Hk Hp].
      split; [exact Hk|]. intros p Hpr.
      destruct (Hp p Hpr) as [Hsp Hnth]. split; [exact Hsp|]. intros Hop.
      destruct (Nat.eq_dec p off) as [->|Hne].
      * rewrite Nat.sub_diag. reflexivity.
      * replace (p - off)%nat with (S (p - S off)) by lia. simpl.
        apply Hnth. lia.
Qed.

Lemma set_last_shape (c c' : list R) (v : R) :
  set_last c v = ok c' ->
  c' = removelast c ++ [v] /\ length c' = length c /\ c <> [].
Proof.
  destruct c as [|x c]; [discriminate|].
  unfold set_last, ok. intros H.
  assert (E : c' = removelast (x :: c) ++ [v]) by congruence.
  split; [exact E|]. split; [|discriminate].
  rewrite E, removelast_firstn_len, length_app, length_firstn. simpl. lia.
Qed.

Lemma episode_ends_length (not_done timeout : list R) :
  length timeout = length not_done ->
  length (episode_ends not_done timeout) = length not_done.
Proof.
  intros H. unfold episode_ends.
  rewrite zipWith_length, !length_map. lia.
Qed.

Lemma episode_ends_forced (not_done not_done' timeout : list R) :
  set_last not_done 0 = ok not_done' ->
  length timeout = length not_done ->
  last (episode_ends not_done' timeout) false = true.
Proof.
  intros Hset Hlen. apply set_last_shape in Hset.
  destruct Hset as (-> & _ & Hne).
  assert (Ht : timeout <> [])
    by (destruct timeout, not_done; simpl in *; congruence).
  assert (Hl : length (removelast not_done) = length (removelast timeout))
    by (rewrite !removelast_firstn_len, !length_firstn; lia).
  pose proof (app_removelast_last 0 Ht) as Et.
  set (ti := removelast timeout) in *. set (tl := last timeout 0) in *.
  rewrite Et. unfold episode_ends. rewrite !map_app. simpl.
  rewrite zipWith_app by (rewrite !length_map; exact Hl).
  simpl. rewrite Reqb_refl. simpl. apply last_last.
Qed.

Lemma zipWith_orb_nth (l m : list bool) (i : nat) :
  length l = length m ->
  nth i (zipWith orb l m) false = nth i l false || nth i m false.
Proof.
  revert m i. induction l as [|a l IH]; intros [|b m] i H; simpl in *;
    try discriminate.
  - destruct i; reflexivity.
  - destruct i; [reflexivity | apply IH; lia].
Qed.

Lemma or_shift_same_length (k : nat) (mask index : list bool) :
  length index = length mask ->
  exists mask',
    or_shift k mask index = ok mask' /\
    length mask' = length mask /\
    forall i, nth i mask' false
              = nth i mask false
                || ((i + k + 1 <? length mask)%nat
                    && nth (i + k + 1) index false).
Proof.
  intros Hlen. unfold or_shift.
  set (n := length mask) in *.
  assert (Hhead : length (firstn (n - (k + 1)) mask) = (n - (k + 1))%nat)
    by (rewrite length_firstn; unfold n; lia).
  assert (Htail : length (skipn (k + 1) index) = (n - (k + 1))%nat)
    by (rewrite length_skipn; lia).
  rewrite Hhead, Htail, Nat.eqb_refl.
  eexists; split; [reflexivity|]. split.
  - rewrite length_app, zipWith_length, Hhead, Htail, length_skipn.
    fold n. lia.
  - intros i. destruct (Nat.ltb_spec (i + k + 1) n) as [Hi|Hi].
    + rewrite app_nth1 by (rewrite zipWith_length, Hhead, Htail; lia).
      rewrite zipWith_orb_nth by congruence.
      rewrite nth_firstn, nth_skipn.
      destruct (Nat.ltb_spec i (n - (k + 1))); [|lia].
      replace (k + 1 + i)%nat with (i + k + 1)%nat by lia. reflexivity.
    + rewrite app_nth2 by (rewrite zipWith_length, Hhead, Htail; lia).
      rewrite zipWith_length, Hhead, Htail, Nat.min_id, nth_skipn.
      simpl. rewrite orb_false_r.
      destruct (Nat.le_gt_cases n i) as [Hge|Hlt].
      * rewrite !nth_overflow by (fold n; lia). reflexivity.
      * f_equal. lia.
Qed.

Lemma rollback_iter_mask (self : Model) (state action : list (list R))
      (done : list nat) (bar decay : R) (k : nat) (mask mask' : list bool)
      (w w' : list R) (wd wd' : R) :
  length (ge_mask (forward (discriminator self) state action) bar)
  = length mask ->
  rollback_iter self state action done bar decay k (mask, w, wd)
  = ok (mask', w', wd') ->
  length mask' = length mask /\
  forall i, nth i mask' false
            = nth i mask false
              || ((i + k + 1 <? length mask)%nat
                  && nth (i + k + 1)
                         (clear_heads k done 0
                            (ge_mask (forward (discriminator self) state
                                              action) bar)) false).
Proof.
  intros Hlen. unfold rollback_iter. simpl.
  destruct (@or_shift_same_length k mask
              (clear_heads k done 0
                 (ge_mask (forward (discriminator self) state action) bar)))
    as (m1 & Hor & Hl & Hn).
  { rewrite clear_heads_length. exact Hlen. }
  rewrite Hor. simpl.
  destruct (raise_weights m1 w wd); simpl; [discriminate|].
  intros H. inversion H; subst. split; assumption.
Qed.

(** C6.  In pass [k] of the rollback loop, a transition [i] that the
    pass newly retains owes it to the transition [k + 1] rows further on,
    which scores at least [bar], and no trajectory ends at any of the rows
    [i .. i + k]: both rows lie in one trajectory.  Conversely, a
    transition with a trajectory end among the rows [i .. i + k], that is,
    within [k + 1] steps of the end of its trajectory, keeps the mask
    value it had before the pass. *)
Theorem rollback_mask_stays_within_trajectory :
  forall (self : Model) (state action : list (list R)) (bar decay : R)
         (k : nat) (not_done not_done' timeout : list R)
         (mask mask' : list bool) (w w' : list R) (wd wd' : R),
    set_last not_done 0 = ok not_done' ->
    length timeout = length not_done ->
    length mask = length not_done ->
    length (ge_mask (forward (discriminator self) state action) bar)
    = length not_done ->
    rollback_iter self state action (boundaries not_done' timeout) bar decay
                  k (mask, w, wd) = ok (mask', w', wd') ->
    forall i,
      (nth i mask false = false -> nth i mask' false = true ->
       (i + k + 1 < length not_done)%nat /\
       nth (i + k + 1)
           (ge_mask (forward (discriminator self) state action) bar) false
       = true /\
       forall p, (i <= p < i + k + 1)%nat ->
                 nth p (episode_ends not_done' timeout) false = false)
      /\ (forall p, (i <= p < i + k + 1)%nat ->
                    nth p (episode_ends not_done' timeout) false = true ->
                    nth i mask' false = nth i mask false).
Proof.
  intros self state action bar decay k not_done not_done' timeout mask mask'
         w w' wd wd' Hset Htl Hml Hil Hiter i.
  apply rollback_iter_mask in Hiter; [|congruence].
  destruct Hiter as [_ Hnth]. specialize (Hnth i). rewrite Hml in Hnth.
  pose proof (@episode_ends_forced _ _ _ Hset Htl) as Hlast.
  destruct (@set_last_shape _ _ _ Hset) as (_ & Hnl & _).
  assert (Hel : length (episode_ends not_done' timeout) = length not_done)
    by (rewrite episode_ends_length; congruence).
  assert (Hkey :
            (i + k + 1 < length not_done)%nat ->
            nth (i + k + 1)
                (clear_heads k (boundaries not_done' timeout) 0
                   (ge_mask (forward (discriminator self) state action) bar))
                false = true ->
            nth (i + k + 1)
                (ge_mask (forward (discriminator self) state action) bar)
                false = true /\
            forall p, (i <= p < i + k + 1)%nat ->
                      nth p (episode_ends not_done' timeout) false = false).
  { intros Hi Hc. apply clear_heads_nth in Hc. destruct Hc as [Hraw Hout].
    split; [exact Hraw|].
    unfold boundaries in Hout.
    destruct (@where_true_trajectory k (episode_ends not_done' timeout)
                0%nat 0%nat (i + k + 1)%nat ltac:(lia) ltac:(lia)
                ltac:(lia) Hlast Hout) as [_ Hp].
    intros p Hpr. destruct (Hp p ltac:(lia)) as [_ Hn].
    rewrite Nat.sub_0_r in Hn. apply Hn. lia. }
  split.
  - intros Hold Hnew. rewrite Hold in Hnth. simpl in Hnth.
    rewrite Hnew in Hnth. symmetry in Hnth.
    apply andb_true_iff in Hnth. destruct Hnth as [Hi Hc].
    apply Nat.ltb_lt in Hi. split; [exact Hi|]. apply Hkey; assumption.
  - intros p Hpr Hend. rewrite Hnth.
    destruct (Nat.ltb_spec (i + k + 1) (length not_done)) as [Hi|Hi];
      simpl; [|apply orb_false_r].
    specialize (Hkey Hi).
    destruct (nth (i + k + 1) (clear_heads _ _ _ _) false);
      [|apply orb_false_r].
    destruct (Hkey eq_refl) as [_ Hno]. rewrite (Hno p Hpr) in Hend.
    discriminate.
Qed.

Lemma rollback_mask_stays_within_trajectory_witness :
  (nth 1 [false; false; true] false = false ->
   nth 1 [false; true; true] false = true ->
   (1 + 0 + 1 < 3)%nat /\
   nth (1 + 0 + 1)
       (ge_mask (forward demo_discriminator (state demo_buffer)
                         (action demo_buffer)) 0.5) false = true /\
   forall p, (1 <= p < 1 + 0 + 1)%nat ->
             nth p (episode_ends [1; 1; 0] [0; 0; 0]) false = false)
  /\ (forall p, (1 <= p < 1 + 0 + 1)%nat ->
                nth p (episode_ends [1; 1; 0] [0; 0; 0]) false = true ->
                nth 1 [false; true; true] false
                = nth 1 [false; false; true] false).
Proof.
  apply (@rollback_mask_stays_within_trajectory
           demo_model (state demo_buffer) (action demo_buffer) 0.5 0.5 0
           [1; 1; 1] [1; 1; 0] [0; 0; 0] [false; false; true]
           [false; true; true] [0; 0; 0] [0; 1; 1] 1 (1 * 0.5)
           eq_refl eq_refl eq_refl eq_refl demo_first_pass 1%nat).
Defined.

(** ** select_data on a well-shaped buffer *)

Lemma raise_weights_same_length (mask : list bool) (w : list R) (wd : R) :
  length mask = length w ->
  exists w', raise_weights mask w wd = ok w' /\ length w' = length w.
Proof.
  intros H. unfold raise_weights. rewrite H, Nat.eqb_refl.
  eexists; split; [reflexivity|]. rewrite zipWith_length. lia.
Qed.

Lemma rollback_iter_returns (self : Model) (state action : list (list R))
      (done : list nat) (bar decay : R) (k : nat) (mask : list bool)
      (w : list R) (wd : R) :
  length (ge_mask (forward (discriminator self) state action) bar)
  = length mask ->
  length w = length mask ->
  exists mask' w',
    rollback_iter self state action done bar decay k (mask, w, wd)
    = ok (mask', w', wd * decay)
    /\ length mask' = length mask /\ length w' = length mask.
Proof.
  intros Hi Hw. unfold rollback_iter. simpl.
  destruct (@or_shift_same_length k mask
              (clear_heads k done 0
                 (ge_mask (forward (discriminator self) state action) bar)))
    as (m1 & Hor & Hl & _).
  { rewrite clear_heads_length. exact Hi. }
  rewrite Hor. simpl.
  destruct (@raise_weights_same_length m1 w wd ltac:(congruence))
    as (w1 & Hr & Hlw).
  rewrite Hr. simpl. exists m1, w1. repeat split; congruence.
Qed.

Lemma rollback_loop_returns (self : Model) (state action : list (list R))
      (done : list nat) (bar decay : R) (ks : list nat) :
  forall (mask : list bool) (w : list R) (wd : R),
    length (ge_mask (forward (discriminator self) state action) bar)
    = length mask ->
    length w = length mask ->
    exists mask' w' wd',
      rollback_loop self state action done bar decay ks (mask, w, wd)
      = ok (mask', w', wd')
      /\ length mask' = length mask /\ length w' = length mask.
Proof.
  induction ks as [|k ks IH]; intros mask w wd Hi Hw; simpl.
  - exists mask, w, wd. auto.
  - destruct (@rollback_iter_returns self state action done bar decay k
                mask w wd Hi Hw) as (m1 & w1 & Hit & Hm1 & Hw1).
    rewrite Hit. simpl.
    destruct (IH m1 w1 (wd * decay) ltac:(congruence) ltac:(congruence))
      as (m2 & w2 & wd2 & Hlp & Hm2 & Hw2).
    exists m2, w2, wd2. repeat split; congruence.
Qed.

Lemma mask_rows_same_length {A : Type} (x : list A) (mask : list bool) :
  length mask = length x -> mask_rows x mask = ok (bool_index x mask).
Proof.
  intros H. unfold mask_rows. rewrite H, Nat.eqb_refl. reflexivity.
Qed.

Lemma select_data_from_returns (self : Model) (mask : list bool)
      (buf : ReplayBuffer) (bar : R) (rollback : nat)
      (decay weight_init : R) :
  columns_match_size buf ->
  (2 <= size buf)%nat ->
  length mask = size buf ->
  length (ge_mask (forward (discriminator self) (state buf) (action buf)) bar)
  = size buf ->
  exists (buf' : ReplayBuffer) (kept : list bool),
    select_data_from self mask buf bar rollback decay weight_init = ok buf'
    /\ length kept = size buf
    /\ size buf' = count_true kept
    /\ state buf' = bool_index (state buf) kept
    /\ action buf' = bool_index (action buf) kept
    /\ next_state buf' = bool_index (next_state buf) kept
    /\ reward buf' = bool_index (reward buf) kept
    /\ flag buf' = bool_index (flag buf) kept
    /\ length (not_done buf') = count_true kept
    /\ length (weight buf') = count_true kept
    /\ timeout buf' = timeout buf.
Proof.
  intros (Hs & Ha & Hns & Hr & Hnd & Hf & Hw & Ht) Hsize Hm Hi.
  unfold select_data_from.
  destruct (set_last (not_done buf) 0) as [|nd'] eqn:Hset.
  { destruct (not_done buf); simpl in *; [lia | discriminate]. }
  destruct (@set_last_shape _ _ _ Hset) as (_ & Hnl & _).
  simpl.
  destruct (@rollback_loop_returns
              self (state buf) (action buf)
              (boundaries nd' (timeout buf)) bar decay (seq 0 rollback)
              mask (map (fun x => x - 1) (weight buf)) weight_init
              ltac:(congruence) ltac:(rewrite length_map; congruence))
    as (kept & w' & wd' & Hloop & Hk & Hw').
  rewrite Hloop. simpl.
  rewrite !mask_rows_same_length by congruence. simpl.
  exists
    {| max_size := max_size buf; ptr := ptr buf;
       size := length (bool_index (state buf) kept);
       state := bool_index (state buf) kept;
       action := bool_index (action buf) kept;
       next_state := bool_index (next_state buf) kept;
       reward := bool_index (reward buf) kept;
       not_done := bool_index nd' kept;
       flag := bool_index (flag buf) kept;
       weight := bool_index w' kept;
       timeout := timeout buf |}, kept.
  simpl. rewrite !bool_index_length by congruence.
  repeat split; congruence.
Qed.

(** ** Column lengths across the buffer operations *)

Lemma init_columns (state_dim action_dim capacity : nat) :
  let b := ReplayBuffer_init state_dim action_dim capacity in
  size b = 0%nat /\
  length (state b) = capacity /\ length (action b) = capacity /\
  length (next_state b) = capacity /\ length (reward b) = capacity /\
  length (not_done b) = capacity /\ length (flag b) = capacity /\
  length (weight b) = capacity /\ length (timeout b) = capacity.
Proof.
  simpl. rewrite !repeat_length. repeat split; reflexivity.
Qed.

Lemma convert_d4rl_columns (self : ReplayBuffer) (dataset : Dataset)
      (dataset_flag : list bool) :
  length (actions dataset) = length (observations dataset) ->
  length (next_observations dataset) = length (observations dataset) ->
  length (rewards dataset) = length (observations dataset) ->
  length (terminals dataset) = length (observations dataset) ->
  length (timeouts dataset) = length (observations dataset) ->
  length dataset_flag = length (observations dataset) ->
  columns_match_size (convert_d4rl self dataset dataset_flag).
Proof.
  intros. unfold columns_match_size, convert_d4rl. simpl.
  rewrite !length_map. repeat split; assumption.
Qed.

Lemma normalize_states_columns (self : ReplayBuffer) (mean std : list R) :
  columns_match_size self ->
  columns_match_size (normalize_states self mean std).
Proof.
  unfold columns_match_size, normalize_states, standardize. simpl.
  rewrite !length_map. auto.
Qed.

Lemma add_transitions_columns (self other : ReplayBuffer) :
  columns_match_size self -> columns_match_size other ->
  columns_match_size (add_transitions self other).
Proof.
  unfold columns_match_size, add_transitions. simpl.
  intros (H1 & H2 & H3 & H4 & H5 & H6 & H7 & H8)
         (K1 & K2 & K3 & K4 & K5 & K6 & K7 & K8).
  rewrite !length_app. repeat split; congruence.
Qed.

Lemma select_data_from_run (self : Model) (mask : list bool)
      (buf : ReplayBuffer) (bar : R) (rollback : nat)
      (decay weight_init : R) :
  columns_match_size buf ->
  (2 <= size buf)%nat ->
  length mask = size buf ->
  length (ge_mask (forward (discriminator self) (state buf) (action buf)) bar)
  = size buf ->
  exists (not_done' : list R) (kept : list bool) (w' : list R) (wd' : R),
    set_last (not_done buf) 0 = ok not_done'
    /\ rollback_loop self (state buf) (action buf)
                     (boundaries not_done' (timeout buf)) bar decay
                     (seq 0 rollback)
                     (mask, map (fun x => x - 1) (weight buf), weight_init)
       = ok (kept, w', wd')
    /\ length kept = size buf /\ length w' = size buf
    /\ select_data_from self mask buf bar rollback decay weight_init
       = ok {| max_size := max_size buf; ptr := ptr buf;
               size := count_true kept;
               state := bool_index (state buf) kept;
               action := bool_index (action buf) kept;
               next_state := bool_index (next_state buf) kept;
               reward := bool_index (reward buf) kept;
               not_done := bool_index not_done' kept;
               flag := bool_index (flag buf) kept;
               weight := bool_index w' kept;
               timeout := timeout buf |}.
Proof.
  intros (Hs & Ha & Hns & Hr & Hnd & Hf & Hw & Ht) Hsize Hm Hi.
  unfold select_data_from.
  destruct (set_last (not_done buf) 0) as [|nd'] eqn:Hset.
  { destruct (not_done buf); simpl in *; [lia | discriminate]. }
  destruct (@set_last_shape _ _ _ Hset) as (_ & Hnl & _).
  simpl.
  destruct (@rollback_loop_returns
              self (state buf) (action buf)
              (boundaries nd' (timeout buf)) bar decay (seq 0 rollback)
              mask (map (fun x => x - 1) (weight buf)) weight_init
              ltac:(congruence) ltac:(rewrite length_map; congruence))
    as (kept & w' & wd' & Hloop & Hk & Hw').
  exists nd', kept, w', wd'.
  split; [reflexivity|]. split; [exact Hloop|].
  split; [congruence|]. split; [congruence|].
  rewrite Hloop. simpl.
  rewrite !mask_rows_same_length by congruence. simpl.
  rewrite bool_index_length by congruence. reflexivity.
Qed.

Lemma count_true_dropped (mask : list bool) (i : nat) :
  (i < length mask)%nat -> nth i mask false = false ->
  (count_true mask < length mask)%nat.
Proof.
  unfold count_true. revert i.
  induction mask as [|b mask IH]; intros [|i] Hi H; simpl in *; try lia.
  - subst b. pose proof (count_true_le mask) as Hle.
    unfold count_true in Hle. lia.
  - specialize (IH i ltac:(lia) H). destruct b; simpl; lia.
Qed.

(** C3, where the code departs from it.  [select_data] raises TypeError
    at line 496.  The filter that ends it (lines 517-524), run from a base
    mask on a buffer whose eight columns have [size] rows, applies the
    final mask of the rollback loop to state, action, next_state, reward,
    not_done, flag and weight and sets [size] to the number of retained
    rows, but it never assigns [timeout]: that column keeps all its
    former rows.  So whenever the final mask drops a row, the timeout
    column has more than [size] rows and the columns of the buffer no
    longer have equal lengths. *)
Theorem select_data_leaves_timeout_unfiltered :
  forall (model : Model) (mask : list bool) (buf : ReplayBuffer) (bar : R)
         (rollback : nat) (decay weight_init : R),
    columns_match_size buf ->
    (2 <= size buf)%nat ->
    length mask = size buf ->
    length (ge_mask (forward (discriminator model) (state buf) (action buf))
                    bar) = size buf ->
    select_data model buf bar rollback decay weight_init = raise TypeError
    /\ exists (not_done' : list R) (kept : list bool) (w' : list R) (wd' : R)
              (buf' : ReplayBuffer),
         set_last (not_done buf) 0 = ok not_done'
         /\ rollback_loop model (state buf) (action buf)
                          (boundaries not_done' (timeout buf)) bar decay
                          (seq 0 rollback)
                          (mask, map (fun x => x - 1) (weight buf),
                           weight_init)
            = ok (kept, w', wd')
         /\ select_data_from model mask buf bar rollback decay weight_init
            = ok buf'
         /\ size buf' = count_true kept
         /\ state buf' = bool_index (state buf) kept
         /\ action buf' = bool_index (action buf) kept
         /\ next_state buf' = bool_index (next_state buf) kept
         /\ reward buf' = bool_index (reward buf) kept
         /\ not_done buf' = bool_index not_done' kept
         /\ flag buf' = bool_index (flag buf) kept
         /\ weight buf' = bool_index w' kept
         /\ timeout buf' = timeout buf
         /\ length (timeout buf') = size buf
         /\ ((exists i, (i < size buf)%nat /\ nth i kept false = false) ->
             (size buf' < length (timeout buf'))%nat
             /\ length (timeout buf') <> length (state buf')
             /\ ~ columns_match_size buf').
Proof.
  intros model mask buf bar rollback decay weight_init Hbuf Hsize Hm Hi.
  split; [reflexivity|].
  destruct (@select_data_from_run model mask buf bar rollback decay
              weight_init Hbuf Hsize Hm Hi)
    as (nd' & kept & w' & wd' & Hset & Hloop & Hk & Hw' & Hsel).
  destruct Hbuf as (Hs & _ & _ & _ & _ & _ & _ & Hto).
  exists nd', kept, w', wd'. eexists.
  split; [exact Hset|]. split; [exact Hloop|]. split; [exact Hsel|].
  cbn [size state action next_state reward not_done flag weight timeout].
  do 9 (split; [reflexivity|]). split; [exact Hto|].
  intros (i & Hlt & Hdrop).
  pose proof (@count_true_dropped kept i ltac:(lia) Hdrop) as Hcount.
  assert (Hst : length (bool_index (state buf) kept) = count_true kept)
    by (apply bool_index_length; congruence).
  split; [lia|]. split; [lia|].
  unfold columns_match_size.
  cbn [size state action next_state reward not_done flag weight timeout].
  intros (_ & _ & _ & _ & _ & _ & _ & H). lia.
Qed.

Lemma select_data_leaves_timeout_unfiltered_witness :
  select_data demo_model demo_buffer 0.5 0 0.5 1 = raise TypeError
  /\ exists buf',
       select_data_from demo_model [false; false; true] demo_buffer
                        0.5 0 0.5 1 = ok buf'
       /\ (size buf' < length (timeout buf'))%nat
       /\ length (timeout buf') <> length (state buf')
       /\ ~ columns_match_size buf'.
Proof.
  destruct (@select_data_leaves_timeout_unfiltered
              demo_model [false; false; true] demo_buffer 0.5 0 0.5 1
              demo_buffer_columns ltac:(simpl; lia) eq_refl eq_refl)
    as (Herr & nd' & kept & w' & wd' & buf' & _ & Hloop & Hsel & _ & _ & _
        & _ & _ & _ & _ & _ & _ & _ & Hbreak).
  split; [exact Herr|].
  exists buf'. split; [exact Hsel|]. apply Hbreak.
  exists 0%nat. split; [simpl; lia|].
  simpl in Hloop. inversion Hloop. reflexivity.
Defined.

(** ** Buffers the operations build hold [size] rows in every column *)

Lemma columns_match_cover (b : ReplayBuffer) :
  columns_match_size b -> columns_cover_size b.
Proof.
  unfold columns_match_size, columns_cover_size.
  intros (H1 & H2 & H3 & H4 & H5 & H6 & H7 & H8). lia.
Qed.

Lemma init_covers (state_dim action_dim capacity : nat) :
  columns_cover_size (ReplayBuffer_init state_dim action_dim capacity).
Proof.
  unfold columns_cover_size. simpl. lia.
Qed.

Lemma select_data_from_covers (self : Model) (mask : list bool)
      (buf : ReplayBuffer) (bar : R) (rollback : nat)
      (decay weight_init : R) :
  columns_match_size buf ->
  (2 <= size buf)%nat ->
  length mask = size buf ->
  length (ge_mask (forward (discriminator self) (state buf) (action buf)) bar)
  = size buf ->
  exists buf',
    select_data_from self mask buf bar rollback decay weight_init = ok buf'
    /\ columns_cover_size buf'.
Proof.
  intros Hbuf Hsize Hm Hi.
  destruct (@select_data_from_returns self mask buf bar rollback decay
              weight_init Hbuf Hsize Hm Hi)
    as (buf' & kept & Hsel & Hk & Hsz & Hst & Hac & Hns & Hrw & Hfl & Hnd
        & Hwt & Hto).
  destruct Hbuf as (B1 & B2 & B3 & B4 & B5 & B6 & B7 & B8).
  exists buf'. split; [exact Hsel|].
  pose proof (count_true_le kept) as Hle.
  unfold columns_cover_size.
  rewrite Hst, Hac, Hns, Hrw, Hfl, Hnd, Hwt, Hto, Hsz.
  rewrite !bool_index_length by congruence. lia.
Qed.

(** ** The three-step scenario *)

Lemma three_step_selection :
  forall (self : Model) (buf : ReplayBuffer) (nd0 nd1 nd2 t0 t1 t2 : R),
    length (state buf) = 3%nat ->
    length (action buf) = 3%nat ->
    length (next_state buf) = 3%nat ->
    length (reward buf) = 3%nat ->
    length (flag buf) = 3%nat ->
    not_done buf = [nd0; nd1; nd2] -> nd0 <> 0 -> nd1 <> 0 ->
    timeout buf = [t0; t1; t2] -> t0 <> 1 -> t1 <> 1 ->
    weight buf = [1; 1; 1] ->
    ge_mask (forward (discriminator self) (state buf) (action buf)) 0.5
    = [false; false; true] ->
    exists buf',
      select_data_from self [false; false; true] buf 0.5 2 0.5 1 = ok buf'
      /\ weight buf' = [0.5; 1; 1]
      /\ size buf' = 3%nat
      /\ state buf' = state buf.
Proof.
  intros self buf nd0 nd1 nd2 t0 t1 t2 Hs Ha Hns Hr Hf Hnd N0 N1 Hto T0' T1'
         Hw Hscore.
  unfold select_data_from. rewrite Hnd, Hto, Hw.
  simpl set_last. simpl bind at 1.
  rewrite boundaries_single_trajectory by assumption.
  simpl seq. simpl map. unfold rollback_loop, rollback_iter.
  unfold call_discriminator. cbn [bind ok]. rewrite Hscore. simpl.
  unfold raise_weights. simpl.
  rewrite (@Rltb_true (1 - 1) 1) by lra. simpl.
  rewrite (@Rltb_false 1 (1 * 0.5)) by lra.
  rewrite (@Rltb_true (1 - 1) (1 * 0.5)) by lra. simpl.
  unfold mask_rows. simpl. rewrite Hs, Ha, Hns, Hr, Hf. simpl.
  destruct (state buf) as [|s0 [|s1 [|s2 [|]]]]; try discriminate.
  destruct (action buf) as [|a0 [|a1 [|a2 [|]]]]; try discriminate.
  destruct (next_state buf) as [|x0 [|x1 [|x2 [|]]]]; try discriminate.
  destruct (reward buf) as [|r0 [|r1 [|r2 [|]]]]; try discriminate.
  destruct (flag buf) as [|f0 [|f1 [|f2 [|]]]]; try discriminate.
  simpl. eexists. split; [reflexivity|]. simpl.
  repeat split. f_equal. lra.
Qed.

(** C4, as the code has it.  One trajectory of three transitions with
    initial weights 1, a base mask that retains the last transition only,
    and current-pair scores of which only the last reaches [bar]: with
    [bar = 0.5], [rollback = 2], [decay = 0.5] and [weight_init = 1] the
    rest of [select_data] retains all three transitions with the weights
    [0.5, 1.0, 1.0].  The transition one step back is raised in pass 0, to
    [weight_init * decay^0]; the one two steps back in pass 1, to
    [weight_init * decay^1]. *)
Theorem select_data_three_step_weights :
  forall (self : Model) (buf : ReplayBuffer) (nd0 nd1 nd2 t0 t1 t2 : R),
    length (state buf) = 3%nat ->
    length (action buf) = 3%nat ->
    length (next_state buf) = 3%nat ->
    length (reward buf) = 3%nat ->
    length (flag buf) = 3%nat ->
    not_done buf = [nd0; nd1; nd2] -> nd0 <> 0 -> nd1 <> 0 ->
    timeout buf = [t0; t1; t2] -> t0 <> 1 -> t1 <> 1 ->
    weight buf = [1; 1; 1] ->
    ge_mask (forward (discriminator self) (state buf) (action buf)) 0.5
    = [false; false; true] ->
    exists buf',
      select_data_from self [false; false; true] buf 0.5 2 0.5 1 = ok buf'
      /\ weight buf' = [0.5; 1; 1]
      /\ size buf' = 3%nat
      /\ state buf' = state buf.
Proof.
  exact three_step_selection.
Qed.

Lemma select_data_three_step_weights_witness :
  exists buf',
    select_data_from demo_model [false; false; true] demo_buffer 0.5 2 0.5 1
    = ok buf'
    /\ weight buf' = [0.5; 1; 1]
    /\ size buf' = 3%nat
    /\ state buf' = state demo_buffer.
Proof.
  apply (@select_data_three_step_weights demo_model demo_buffer 1 1 1 0 0 0);
    try reflexivity; try lra.
  exact demo_scores.
Defined.

Lemma select_data_three_step_counterexample :
  ~ (exists buf',
        select_data demo_model demo_buffer 0.5 2 0.5 1 = ok buf'
        /\ weight buf' = [0.5; 0.5; 1])
  /\ ~ (exists buf',
          select_data_from demo_model [false; false; true] demo_buffer
                           0.5 2 0.5 1 = ok buf'
          /\ weight buf' = [0.5; 0.5; 1]).
Proof.
  split.
  - intros (buf' & H & _). discriminate H.
  - intros (buf' & H & Hw).
    destruct (@three_step_selection demo_model demo_buffer 1 1 1 0 0 0)
      as (buf'' & H' & Hw' & _); try reflexivity; try lra.
    + exact demo_scores.
    + rewrite H in H'. inversion H'; subst buf''.
      rewrite Hw in Hw'. inversion Hw'. lra.
Qed.

(** ** Trajectory counts in the splitter *)

Lemma py_prefix_all {A : Type} (l : list A) (k : Z) :
  (Z.of_nat (length l) <= k)%Z -> py_prefix l k = l.
Proof.
  intros H. unfold py_prefix.
  destruct (Z.leb_spec 0 k); [|lia].
  apply firstn_all2. lia.
Qed.

(** C8, as the code has it.  Neither operation compares its count with
    the number of trajectories: a slice with a bound past the end of the
    list is the whole list, so a count of at least the number of
    trajectories gives exactly the result that this number gives. *)
Theorem split_counts_are_clamped :
  forall (dataset : Dataset) (terminate_on_end : bool)
         (trajs : list (list Step)) (split_x exp_num m : Z),
    trajectories dataset terminate_on_end = ok trajs ->
    (Z.of_nat (length trajs) <= exp_num)%Z ->
    (Z.of_nat (length trajs) <= m)%Z ->
    dataset_split_expert dataset split_x exp_num terminate_on_end
    = dataset_split_expert dataset split_x (Z.of_nat (length trajs))
                           terminate_on_end
    /\ dataset_m_trajs dataset m terminate_on_end
       = dataset_m_trajs dataset (Z.of_nat (length trajs)) terminate_on_end.
Proof.
  intros dataset toe trajs split_x exp_num m Ht He Hm.
  unfold dataset_split_expert, dataset_m_trajs. rewrite Ht. simpl bind.
  rewrite !py_prefix_all by (rewrite length_seq; lia).
  split; reflexivity.
Qed.

Lemma split_counts_are_clamped_witness :
  dataset_split_expert demo_dataset 0 5 false
  = dataset_split_expert demo_dataset 0 (Z.of_nat 1) false
  /\ dataset_m_trajs demo_dataset 7 false
     = dataset_m_trajs demo_dataset (Z.of_nat 1) false.
Proof.
  apply (@split_counts_are_clamped
           demo_dataset false
           [[mkStep [0] [1] [0] 0 false false;
             mkStep [1] [2] [0] 0 false false]] 0 5 7).
  - reflexivity.
  - simpl. lia.
  - simpl. lia.
Defined.

Lemma split_counts_counterexample :
  exists trajs,
    trajectories demo_dataset false = ok trajs
    /\ (Z.of_nat (length trajs) < 5)%Z
    /\ dataset_split_expert demo_dataset 0 5 false
       = ok (mkDataset [[0]; [1]] [[0]; [0]] [[1]; [2]] [0; 0]
                       [false; false] [false; false], None)
    /\ dataset_m_trajs demo_dataset 5 false
       = ok (mkDataset [[0]; [1]] [[0]; [0]] [[1]; [2]] [0; 0]
                       [false; false] [false; false]).
Proof.
  eexists. split; [reflexivity|]. split; [simpl; lia|].
  split; reflexivity.
Qed.

(** * Further properties *)

(** ** Scores *)

Lemma discriminator_scores_clipped (D : Discriminator)
      (state action : list (list R)) :
  Forall (Forall (fun d => 0.1 <= d <= 0.9)) (forward D state action).
Proof.
  unfold forward.
  apply Forall_map. apply Forall_forall. intros row _.
  apply Forall_map. apply Forall_forall. intros d _.
  apply clip_bounds. lra.
Qed.

(** ** Segmentation into trajectories *)

Lemma read_step_in_range (dataset : Dataset) (i : nat) :
  raw_columns_agree dataset ->
  (i + 1 < length (rewards dataset))%nat ->
  read_step dataset i = ok (step_at dataset i).
Proof.
  intros (Ho & Ha & Ht & Hto) Hi. unfold read_step, lookup, step_at.
  rewrite (@nth_error_nth' _ (observations dataset) i []) by lia.
  rewrite (@nth_error_nth' _ (observations dataset) (i + 1) []) by lia.
  rewrite (@nth_error_nth' _ (actions dataset) i []) by lia.
  rewrite (@nth_error_nth' _ (rewards dataset) i 0) by lia.
  rewrite (@nth_error_nth' _ (terminals dataset) i false) by lia.
  rewrite (@nth_error_nth' _ (timeouts dataset) i false) by lia.
  reflexivity.
Qed.

Lemma segment_structure (dataset : Dataset) (terminate_on_end : bool)
      (range : list nat) :
  raw_columns_agree dataset ->
  Forall (fun i => (i + 1 < length (rewards dataset))%nat) range ->
  forall closed current,
    Forall closed_segment closed ->
    Forall (fun st => final_timestep st = false) current ->
    terminate_on_end = false ->
    exists closed' last_seg,
      segment dataset terminate_on_end range closed current
      = ok (closed' ++ [last_seg])
      /\ Forall closed_segment closed'
      /\ Forall (fun st => final_timestep st = false) last_seg
      /\ concat (closed' ++ [last_seg])
         = concat closed ++ current ++ map (step_at dataset) range
      /\ length closed'
         = (length closed
            + length (filter final_timestep (map (step_at dataset) range)))%nat
      /\ (range = [] -> last_seg = current)
      /\ (range <> [] ->
          final_timestep (step_at dataset (last range 0%nat)) = true ->
          last_seg = []).
Proof.
  intros Hcols Hrange. induction Hrange as [|i range Hi _ IH];
    intros closed current Hcl Hcur Htoe.
  - exists closed, current. simpl. rewrite !concat_app. simpl.
    rewrite !app_nil_r. repeat split; auto. congruence.
  - subst. cbn [segment]. rewrite read_step_in_range by assumption.
    cbn [bind ok negb andb map filter].
    change (s_timeout (step_at dataset i) || s_done (step_at dataset i))
      with (final_timestep (step_at dataset i)).
    destruct (final_timestep (step_at dataset i)) eqn:Hf.
    + destruct (IH (closed ++ [current ++ [step_at dataset i]]) [])
        as (closed' & last_seg & Hseg & Hc' & Hl & Hcat & Hlen & Hnil & Hlast);
        auto.
      { apply Forall_app. split; [assumption|]. constructor; [|constructor].
        exists current, (step_at dataset i). auto. }
      exists closed', last_seg. split; [exact Hseg|].
      split; [exact Hc'|]. split; [exact Hl|]. split; [|split; [|split]].
      * rewrite Hcat, concat_app. simpl. rewrite !app_nil_r, <- !app_assoc.
        reflexivity.
      * rewrite Hlen, length_app. simpl. lia.
      * discriminate.
      * intros _ Hfin. destruct range as [|i' range'].
        -- apply Hnil. reflexivity.
        -- apply Hlast; [discriminate | exact Hfin].
    + destruct (IH closed (current ++ [step_at dataset i]))
        as (closed' & last_seg & Hseg & Hc' & Hl & Hcat & Hlen & Hnil & Hlast);
        auto.
      { apply Forall_app. split; [assumption|]. constructor; auto. }
      exists closed', last_seg. split; [exact Hseg|].
      split; [exact Hc'|]. split; [exact Hl|]. split; [|split; [|split]].
      * rewrite Hcat, <- !app_assoc. reflexivity.
      * exact Hlen.
      * discriminate.
      * intros _ Hfin. destruct range as [|i' range'].
        -- simpl in Hfin. congruence.
        -- apply Hlast; [discriminate | exact Hfin].
Qed.

Lemma range_rows (n : nat) :
  Forall (fun i => (i + 1 < n)%nat) (seq 0 (n - 1)).
Proof.
  apply Forall_forall. intros i Hi. apply in_seq in Hi. lia.
Qed.

Lemma trajectories_return (dataset : Dataset) :
  raw_columns_agree dataset ->
  exists trajs, trajectories dataset false = ok trajs.
Proof.
  intros Hcols. unfold trajectories.
  destruct (@segment_structure dataset false
              (seq 0 (length (rewards dataset) - 1)) Hcols
              (range_rows _) [] [] (Forall_nil _) (Forall_nil _) eq_refl)
    as (closed' & last_seg & Hseg & _).
  eexists. exact Hseg.
Qed.

(** X1.  On a dataset whose columns have n rows each, the segmentation
    returns, and the segments in order hold exactly the transitions of
    the rows 0 .. n-2, each once: row i with the observation of row i+1
    as its next observation.  The last row starts no transition. *)
Theorem trajectories_keep_every_transition :
  forall (dataset : Dataset),
    raw_columns_agree dataset ->
    exists trajs,
      trajectories dataset false = ok trajs
      /\ concat trajs
         = map (step_at dataset) (seq 0 (length (rewards dataset) - 1))
      /\ length (concat trajs) = (length (rewards dataset) - 1)%nat.
Proof.
  intros dataset Hcols. unfold trajectories.
  destruct (@segment_structure dataset false
              (seq 0 (length (rewards dataset) - 1)) Hcols
              (range_rows _) [] [] (Forall_nil _) (Forall_nil _) eq_refl)
    as (closed' & last_seg & Hseg & _ & _ & Hcat & _).
  exists (closed' ++ [last_seg]). split; [exact Hseg|].
  simpl in Hcat. split; [exact Hcat|].
  rewrite Hcat, length_map, length_seq. reflexivity.
Qed.

(** X2.  The segments are cut at the terminal and timeout flags: every
    segment but the last ends with a flagged transition and holds no other
    flagged one, the last segment holds none, and there is one segment
    more than there are flagged rows among the rows 0 .. n-2. *)
Theorem trajectories_cut_at_episode_ends :
  forall (dataset : Dataset),
    raw_columns_agree dataset ->
    exists closed last_seg,
      trajectories dataset false = ok (closed ++ [last_seg])
      /\ Forall closed_segment closed
      /\ Forall (fun st => final_timestep st = false) last_seg
      /\ length (closed ++ [last_seg])
         = (1 + length (filter final_timestep
                          (map (step_at dataset)
                               (seq 0 (length (rewards dataset) - 1)))))%nat.
Proof.
  intros dataset Hcols. unfold trajectories.
  destruct (@segment_structure dataset false
              (seq 0 (length (rewards dataset) - 1)) Hcols
              (range_rows _) [] [] (Forall_nil _) (Forall_nil _) eq_refl)
    as (closed' & last_seg & Hseg & Hc & Hl & _ & Hlen & _).
  exists closed', last_seg. repeat split; auto.
  rewrite length_app, Hlen. simpl. lia.
Qed.

Lemma trajectories_keep_every_transition_witness :
  exists trajs,
    trajectories demo_dataset false = ok trajs
    /\ concat trajs
       = map (step_at demo_dataset)
             (seq 0 (length (rewards demo_dataset) - 1))
    /\ length (concat trajs) = (length (rewards demo_dataset) - 1)%nat.
Proof.
  apply (@trajectories_keep_every_transition demo_dataset).
  unfold raw_columns_agree. simpl. repeat split; reflexivity.
Defined.

Lemma trajectories_cut_at_episode_ends_witness :
  exists closed last_seg,
    trajectories demo_dataset false = ok (closed ++ [last_seg])
    /\ Forall closed_segment closed
    /\ Forall (fun st => final_timestep st = false) last_seg
    /\ length (closed ++ [last_seg])
       = (1 + length (filter final_timestep
                        (map (step_at demo_dataset)
                             (seq 0 (length (rewards demo_dataset) - 1)))))%nat.
Proof.
  apply (@trajectories_cut_at_episode_ends demo_dataset).
  unfold raw_columns_agree. simpl. repeat split; reflexivity.
Defined.

(** ** Which trajectories the splitter selects *)

Lemma firstn_seq_min (k start n : nat) :
  firstn k (seq start n) = seq start (Nat.min k n).
Proof.
  revert start n. induction k as [|k IH]; intros start [|n]; simpl; auto.
  rewrite IH. reflexivity.
Qed.

Lemma py_prefix_seq (n : nat) (k : Z) :
  exists c, (c <= n)%nat /\ py_prefix (seq 0 n) k = seq 0 c
            /\ ((0 <= k)%Z -> c = Nat.min (Z.to_nat k) n).
Proof.
  unfold py_prefix. destruct (Z.leb_spec 0 k).
  - exists (Nat.min (Z.to_nat k) n). split; [lia|].
    split; [apply firstn_seq_min | reflexivity].
  - exists (Nat.min (length (seq 0 n) - Z.to_nat (- k)) n).
    split; [lia|]. split; [apply firstn_seq_min | lia].
Qed.

Lemma set_minus_seq (a c : nat) :
  (a <= c)%nat -> set_minus (seq 0 c) (seq a (c - a)) = seq 0 a.
Proof.
  intros H. unfold set_minus.
  replace c with (a + (c - a))%nat at 1 by lia.
  rewrite seq_app, filter_app. simpl.
  rewrite (@forallb_filter_id _ _ (seq 0 a)).
  - rewrite (@filter_ext_in _ _ (fun _ => false) (seq a (c - a))).
    + rewrite filter_false. apply app_nil_r.
    + intros i Hi. apply negb_false_iff. apply existsb_exists.
      exists i. split; [exact Hi | apply Nat.eqb_refl].
  - apply forallb_forall. intros i Hi. apply in_seq in Hi.
    apply negb_true_iff.
    destruct (existsb (Nat.eqb i) (seq a (c - a))) eqn:E; [|reflexivity].
    apply existsb_exists in E. destruct E as (j & Hj & Hij).
    apply Nat.eqb_eq in Hij. subst j. apply in_seq in Hj. lia.
Qed.

(** The three index lists of lines 175-181: the selected prefix of
    length [c], its first [a] indices for D_e and the rest for D_s. *)
Lemma split_indices (n : nat) (split_x exp_num : Z) :
  exists c a,
    (a <= c <= n)%nat
    /\ py_prefix (seq 0 n) exp_num = seq 0 c
    /\ (if (0 <? split_x)%Z
        then py_suffix (py_prefix (seq 0 n) exp_num) split_x
        else []) = seq a (c - a)
    /\ set_minus (py_prefix (seq 0 n) exp_num)
                 (if (0 <? split_x)%Z
                  then py_suffix (py_prefix (seq 0 n) exp_num) split_x
                  else []) = seq 0 a
    /\ ((0 <= exp_num <= split_x)%Z -> a = 0%nat).
Proof.
  destruct (py_prefix_seq n exp_num) as (c & Hc & Hp & Hmin).
  rewrite Hp. destruct (Z.ltb_spec 0 split_x) as [Hs|Hs].
  - exists c, (c - Z.to_nat split_x)%nat.
    assert (Hsuf : py_suffix (seq 0 c) split_x
                   = seq (c - Z.to_nat split_x)
                         (c - (c - Z.to_nat split_x))).
    { unfold py_suffix. rewrite length_seq, skipn_seq. reflexivity. }
    rewrite Hsuf. split; [lia|]. split; [reflexivity|].
    split; [reflexivity|]. split; [apply set_minus_seq; lia|].
    intros H. specialize (Hmin ltac:(lia)). lia.
  - exists c, c. split; [lia|]. split; [reflexivity|].
    rewrite Nat.sub_diag. split; [reflexivity|].
    split.
    + pose proof (@set_minus_seq c c ltac:(lia)) as H.
      rewrite Nat.sub_diag in H. exact H.
    + intros H. specialize (Hmin ltac:(lia)). lia.
Qed.

Lemma pick_seq_app (trajs : list (list Step)) (a c : nat) :
  (a <= c)%nat ->
  pick trajs (seq 0 c) = pick trajs (seq 0 a) ++ pick trajs (seq a (c - a)).
Proof.
  intros H. unfold pick.
  replace c with (a + (c - a))%nat at 1 by lia.
  rewrite seq_app, map_app. reflexivity.
Qed.

Lemma concat_rows_value {A : Type} (ts : list (list (list A)))
      (r : list (list A)) :
  concat_rows ts = ok r -> r = concat ts.
Proof.
  unfold concat_rows. destruct ts as [|t ts]; [discriminate|].
  destruct (_ || _); [|discriminate]. intros H. inversion H. reflexivity.
Qed.

Lemma concat_scalars_value {A : Type} (ts : list (list A)) (r : list A) :
  concat_scalars ts = ok r -> r = concat ts.
Proof.
  unfold concat_scalars. destruct ts as [|t ts]; [discriminate|].
  intros H. inversion H. reflexivity.
Qed.

Lemma concat_dataset_columns (trajs : list (list Step)) (d : Dataset) :
  concat_dataset trajs = ok d ->
  observations d = map s_obs (concat trajs)
  /\ actions d = map s_action (concat trajs)
  /\ next_observations d = map s_next_obs (concat trajs)
  /\ rewards d = map s_reward (concat trajs)
  /\ terminals d = map s_done (concat trajs)
  /\ timeouts d = map s_timeout (concat trajs).
Proof.
  unfold concat_dataset.
  destruct (concat_rows (map (map s_obs) trajs)) as [|o] eqn:Eo;
    [discriminate|].
  destruct (concat_rows (map (map s_action) trajs)) as [|a] eqn:Ea;
    [discriminate|].
  destruct (concat_rows (map (map s_next_obs) trajs)) as [|o'] eqn:Eo';
    [discriminate|].
  destruct (concat_scalars (map (map s_reward) trajs)) as [|r] eqn:Er;
    [discriminate|].
  destruct (concat_scalars (map (map s_done) trajs)) as [|dn] eqn:Ed;
    [discriminate|].
  destruct (concat_scalars (map (map s_timeout) trajs)) as [|t] eqn:Et;
    [discriminate|].
  cbn [bind ok]. intros H. inversion H; subst d; clear H.
  apply concat_rows_value in Eo, Ea, Eo'.
  apply concat_scalars_value in Er, Ed, Et. subst.
  cbn [observations actions next_observations rewards terminals timeouts].
  rewrite <- !concat_map. repeat split; reflexivity.
Qed.

(** X3.  When both return for the same count, the expert split cuts up
    what [dataset_m_trajs] selects: without decoys D_e is that dataset;
    with decoys its rows are those of D_e followed by those of the decoy
    dataset, column by column. *)
Theorem split_expert_partitions_prefix :
  forall (dataset : Dataset) (split_x exp_num : Z) (terminate_on_end : bool)
         (dataset_e : Dataset) (extra : option Dataset) (dataset_m : Dataset),
    dataset_split_expert dataset split_x exp_num terminate_on_end
    = ok (dataset_e, extra) ->
    dataset_m_trajs dataset exp_num terminate_on_end = ok dataset_m ->
    match extra with
    | None => dataset_m = dataset_e
    | Some dataset_s =>
        observations dataset_m
        = observations dataset_e ++ observations dataset_s
        /\ actions dataset_m = actions dataset_e ++ actions dataset_s
        /\ next_observations dataset_m
           = next_observations dataset_e ++ next_observations dataset_s
        /\ rewards dataset_m = rewards dataset_e ++ rewards dataset_s
        /\ terminals dataset_m = terminals dataset_e ++ terminals dataset_s
        /\ timeouts dataset_m = timeouts dataset_e ++ timeouts dataset_s
    end.
Proof.
  intros dataset split_x exp_num toe dataset_e extra dataset_m.
  unfold dataset_split_expert, dataset_m_trajs.
  destruct (trajectories dataset toe) as [|trajs]; [discriminate|].
  cbn [bind]. cbv zeta.
  destruct (split_indices (length trajs) split_x exp_num)
    as (c & a & Hac & Hp & Hs & He & _).
  rewrite He, Hs, Hp.
  rewrite (@pick_seq_app trajs a c) by lia.
  destruct (concat_dataset (pick trajs (seq 0 a))) as [|de] eqn:Ede;
    [discriminate|].
  cbn [bind].
  destruct (is_nil (pick trajs (seq a (c - a)))) eqn:Enil.
  - cbn [bind ok]. intros H Hm. inversion H; subst; clear H.
    destruct (pick trajs (seq a (c - a))); [|discriminate].
    rewrite app_nil_r, Ede in Hm. inversion Hm. reflexivity.
  - destruct (concat_dataset (pick trajs (seq a (c - a)))) as [|ds] eqn:Eds;
      [discriminate|].
    cbn [bind ok]. intros H Hm. inversion H; subst; clear H.
    apply concat_dataset_columns in Ede, Eds, Hm.
    destruct Ede as (E1 & E2 & E3 & E4 & E5 & E6).
    destruct Eds as (S1 & S2 & S3 & S4 & S5 & S6).
    destruct Hm as (M1 & M2 & M3 & M4 & M5 & M6).
    rewrite M1, M2, M3, M4, M5, M6, E1, E2, E3, E4, E5, E6,
      S1, S2, S3, S4, S5, S6.
    rewrite concat_app, !map_app. repeat split; reflexivity.
Qed.

(** X4.  Asking for no more expert trajectories than decoys is an
    error: on a dataset whose columns have equally many rows, a count
    [exp_num] between 0 and [split_x] selects no trajectory for D_e and
    [dataset_split_expert] raises ValueError, and so does
    [dataset_m_trajs] for the count 0: there is nothing to concatenate. *)
Theorem split_without_expert_trajectory_fails :
  forall (dataset : Dataset) (split_x exp_num : Z),
    raw_columns_agree dataset ->
    (0 <= exp_num <= split_x)%Z ->
    dataset_split_expert dataset split_x exp_num false = raise ValueError
    /\ dataset_m_trajs dataset 0 false = raise ValueError.
Proof.
  intros dataset split_x exp_num Hcols Hx.
  destruct (trajectories_return Hcols) as (trajs & Ht).
  unfold dataset_split_expert, dataset_m_trajs. rewrite Ht.
  cbn [bind ok]. cbv zeta. split.
  - destruct (split_indices (length trajs) split_x exp_num)
      as (c & a & Hac & Hp & Hs & He & Ha).
    rewrite He, (Ha Hx). reflexivity.
  - reflexivity.
Qed.

Lemma split_expert_partitions_prefix_witness :
  observations (mkDataset [[0]; [1]; [2]; [3]] [[0]; [0]; [0]; [0]]
                          [[1]; [2]; [3]; [4]] [0; 0; 0; 0]
                          [false; true; false; false]
                          [false; false; false; false])
  = [[0]; [1]] ++ [[2]; [3]]
  /\ actions (mkDataset [[0]; [1]; [2]; [3]] [[0]; [0]; [0]; [0]]
                        [[1]; [2]; [3]; [4]] [0; 0; 0; 0]
                        [false; true; false; false]
                        [false; false; false; false])
     = [[0]; [0]] ++ [[0]; [0]]
  /\ [[1]; [2]; [3]; [4]] = [[1]; [2]] ++ [[3]; [4]]
  /\ [0; 0; 0; 0] = [0; 0] ++ [0; 0]
  /\ [false; true; false; false] = [false; true] ++ [false; false]
  /\ [false; false; false; false] = [false; false] ++ [false; false].
Proof.
  exact (@split_expert_partitions_prefix
           demo_episodes 1 2 false
           (mkDataset [[0]; [1]] [[0]; [0]] [[1]; [2]] [0; 0]
                      [false; true] [false; false])
           (Some (mkDataset [[2]; [3]] [[0]; [0]] [[3]; [4]] [0; 0]
                            [false; false] [false; false]))
           (mkDataset [[0]; [1]; [2]; [3]] [[0]; [0]; [0]; [0]]
                      [[1]; [2]; [3]; [4]] [0; 0; 0; 0]
                      [false; true; false; false]
                      [false; false; false; false])
           eq_refl eq_refl).
Defined.

Lemma split_without_expert_trajectory_fails_witness :
  dataset_split_expert demo_episodes 1 1 false = raise ValueError
  /\ dataset_m_trajs demo_episodes 0 false = raise ValueError.
Proof.
  apply (@split_without_expert_trajectory_fails demo_episodes 1 1).
  - unfold raw_columns_agree. simpl. repeat split; reflexivity.
  - lia.
Defined.

(** ** From the splitter to the buffers *)

Lemma concat_dataset_agree (trajs : list (list Step)) (d : Dataset) :
  concat_dataset trajs = ok d -> dataset_columns_agree d.
Proof.
  intros H. apply concat_dataset_columns in H.
  destruct H as (E1 & E2 & E3 & E4 & E5 & E6).
  unfold dataset_columns_agree.
  rewrite E1, E2, E3, E4, E5, E6, !length_map. repeat split; reflexivity.
Qed.

Lemma dataset_m_trajs_agree (dataset : Dataset) (m : Z) (toe : bool)
      (d : Dataset) :
  dataset_m_trajs dataset m toe = ok d -> dataset_columns_agree d.
Proof.
  unfold dataset_m_trajs.
  destruct (trajectories dataset toe) as [|trajs]; [discriminate|].
  cbn [bind]. apply concat_dataset_agree.
Qed.

Lemma dataset_split_expert_agree (dataset : Dataset) (split_x exp_num : Z)
      (toe : bool) (de : Dataset) (extra : option Dataset) :
  dataset_split_expert dataset split_x exp_num toe = ok (de, extra) ->
  dataset_columns_agree de
  /\ match extra with
     | None => True
     | Some ds => dataset_columns_agree ds
     end.
Proof.
  unfold dataset_split_expert.
  destruct (trajectories dataset toe) as [|trajs]; [discriminate|].
  cbn [bind]. cbv zeta.
  set (inds_s := if (0 <? split_x)%Z then _ else []).
  set (inds_e := set_minus _ inds_s).
  destruct (concat_dataset (pick trajs inds_e)) as [|d1] eqn:E1;
    [discriminate|].
  cbn [bind].
  destruct (is_nil (pick trajs inds_s)).
  - cbn [bind ok]. intros H. inversion H; subst.
    split; [eapply concat_dataset_agree; eassumption | exact I].
  - destruct (concat_dataset (pick trajs inds_s)) as [|d2] eqn:E2;
      [discriminate|].
    cbn [bind ok]. intros H. inversion H; subst.
    split; eapply concat_dataset_agree; eassumption.
Qed.

Lemma concat_pair_rows_value {A : Type} (a b r : list (list A)) :
  concat_pair_rows a b = ok r -> r = a ++ b.
Proof.
  unfold concat_pair_rows. intros H. apply concat_rows_value in H.
  rewrite H. simpl. rewrite app_nil_r. reflexivity.
Qed.

Lemma extend_dataset_columns (ds : Dataset) (fs : list bool) (ex : Dataset)
      (fex : list bool) (d : Dataset) (f : list bool) :
  extend_dataset ds fs ex fex = ok (d, f) ->
  observations d = observations ds ++ observations ex
  /\ actions d = actions ds ++ actions ex
  /\ next_observations d = next_observations ds ++ next_observations ex
  /\ rewards d = rewards ds ++ rewards ex
  /\ terminals d = terminals ds ++ terminals ex
  /\ timeouts d = timeouts ds ++ timeouts ex
  /\ f = fs ++ fex.
Proof.
  unfold extend_dataset.
  destruct (concat_pair_rows (observations ds) _) as [|o] eqn:Eo;
    [discriminate|].
  destruct (concat_pair_rows (actions ds) _) as [|a] eqn:Ea;
    [discriminate|].
  destruct (concat_pair_rows (next_observations ds) _) as [|o'] eqn:Eo';
    [discriminate|].
  cbn [bind ok]. intros H. inversion H; subst; clear H.
  apply concat_pair_rows_value in Eo, Ea, Eo'. subst.
  cbn [observations actions next_observations rewards terminals timeouts].
  repeat split; reflexivity.
Qed.

Lemma get_datasets_parts (dataset_e_raw dataset_s_raw : Dataset)
      (num_e num_s_e num_s_s : Z) (de ds : Dataset) (fe fs : list bool) :
  get_datasets dataset_e_raw dataset_s_raw num_e num_s_e num_s_s
  = ok ((de, fe), (ds, fs)) ->
  exists seed extra,
    dataset_m_trajs dataset_s_raw num_s_s false = ok seed
    /\ dataset_split_expert dataset_e_raw num_s_e (num_e + num_s_e) false
       = ok (de, extra)
    /\ fe = map (fun _ => true) (terminals de)
    /\ match extra with
       | None => ds = seed /\ fs = map (fun _ => false) (terminals seed)
       | Some x =>
           extend_dataset seed (map (fun _ => false) (terminals seed))
                          x (map (fun _ => true) (terminals x))
           = ok (ds, fs)
       end.
Proof.
  unfold get_datasets.
  destruct (dataset_m_trajs dataset_s_raw num_s_s false) as [|seed];
    [discriminate|].
  cbn [bind].
  destruct (dataset_split_expert dataset_e_raw num_s_e (num_e + num_s_e)
                                 false) as [|[de' extra]]; [discriminate|].
  cbn [bind]. destruct extra as [x|].
  - destruct (extend_dataset seed _ x _) as [|[d f]] eqn:E; [discriminate|].
    cbn [bind ok]. intros H. exists seed, (Some x).
    inversion H; subst. repeat split; auto.
  - intros H. exists seed, None.
    inversion H; subst. repeat split; auto.
Qed.

(** X5.  Whatever [get_datasets] returns can be loaded: both datasets
    have equally many rows in all columns and in the flag column, so
    [convert_d4rl] of either gives a buffer in which every column has
    exactly [size] rows, [size] being the number of observations. *)
Theorem get_datasets_fill_buffers :
  forall (dataset_e_raw dataset_s_raw : Dataset) (num_e num_s_e num_s_s : Z)
         (de ds : Dataset) (fe fs : list bool) (b_e b_s : ReplayBuffer),
    get_datasets dataset_e_raw dataset_s_raw num_e num_s_e num_s_s
    = ok ((de, fe), (ds, fs)) ->
    columns_match_size (convert_d4rl b_e de fe)
    /\ size (convert_d4rl b_e de fe) = length (observations de)
    /\ columns_match_size (convert_d4rl b_s ds fs)
    /\ size (convert_d4rl b_s ds fs) = length (observations ds).
Proof.
  intros e_raw s_raw ne nse nss de ds fe fs b_e b_s H.
  destruct (get_datasets_parts _ _ _ _ _ H)
    as (seed & extra & Hm & Hsp & Hfe & Hex).
  apply dataset_m_trajs_agree in Hm.
  apply dataset_split_expert_agree in Hsp. destruct Hsp as [Hde Hx].
  destruct Hde as (A1 & A2 & A3 & A4 & A5).
  destruct Hm as (M1 & M2 & M3 & M4 & M5).
  split.
  { apply convert_d4rl_columns; auto. subst fe. rewrite length_map. auto. }
  split; [reflexivity|]. split; [|reflexivity].
  destruct extra as [x|].
  - destruct Hx as (X1 & X2 & X3 & X4 & X5).
    apply extend_dataset_columns in Hex.
    destruct Hex as (E1 & E2 & E3 & E4 & E5 & E6 & E7).
    apply convert_d4rl_columns;
      rewrite ?E1, ?E2, ?E3, ?E4, ?E5, ?E6, ?E7, ?length_app, ?length_map;
      lia.
  - destruct Hex as [-> ->].
    apply convert_d4rl_columns; rewrite ?length_map; auto.
Qed.

(** X6.  The flag column records the origin of every row: D_e is flagged
    1 throughout; D_s consists of the rows of the low-quality selection,
    flagged 0, followed by the rows of the decoy expert trajectories, if
    any, flagged 1. *)
Theorem get_datasets_flags_mark_origin :
  forall (dataset_e_raw dataset_s_raw : Dataset) (num_e num_s_e num_s_s : Z)
         (de ds : Dataset) (fe fs : list bool),
    get_datasets dataset_e_raw dataset_s_raw num_e num_s_e num_s_s
    = ok ((de, fe), (ds, fs)) ->
    fe = repeat true (length (observations de))
    /\ exists seed extra,
         dataset_m_trajs dataset_s_raw num_s_s false = ok seed
         /\ dataset_split_expert dataset_e_raw num_s_e (num_e + num_s_e)
                                 false = ok (de, extra)
         /\ match extra with
            | None =>
                ds = seed
                /\ fs = repeat false (length (observations seed))
            | Some x =>
                observations ds = observations seed ++ observations x
                /\ actions ds = actions seed ++ actions x
                /\ rewards ds = rewards seed ++ rewards x
                /\ fs = repeat false (length (observations seed))
                        ++ repeat true (length (observations x))
            end.
Proof.
  intros e_raw s_raw ne nse nss de ds fe fs H.
  destruct (get_datasets_parts _ _ _ _ _ H)
    as (seed & extra & Hm & Hsp & Hfe & Hex).
  pose proof (dataset_m_trajs_agree _ _ _ Hm) as (M1 & M2 & M3 & M4 & M5).
  pose proof (dataset_split_expert_agree _ _ _ _ Hsp) as [Hde Hx].
  destruct Hde as (A1 & A2 & A3 & A4 & A5).
  split.
  { subst fe. rewrite map_const. congruence. }
  exists seed, extra. split; [exact Hm|]. split; [exact Hsp|].
  destruct extra as [x|].
  - destruct Hx as (X1 & X2 & X3 & X4 & X5).
    apply extend_dataset_columns in Hex.
    destruct Hex as (E1 & E2 & E3 & E4 & E5 & E6 & E7).
    rewrite E1, E2, E4, E7, !map_const. repeat split; congruence.
  - destruct Hex as [-> ->]. split; [reflexivity|].
    rewrite map_const. congruence.
Qed.

Lemma demo_get_datasets :
  get_datasets demo_episodes demo_dataset 1 1 1
  = ok ((mkDataset [[0]; [1]] [[0]; [0]] [[1]; [2]] [0; 0]
                   [false; true] [false; false],
         [true; true]),
        (mkDataset [[0]; [1]; [2]; [3]] [[0]; [0]; [0]; [0]]
                   [[1]; [2]; [3]; [4]] [0; 0; 0; 0]
                   [false; false; false; false]
                   [false; false; false; false],
         [false; false; true; true])).
Proof. reflexivity. Qed.

Lemma get_datasets_fill_buffers_witness :
  let de := mkDataset [[0]; [1]] [[0]; [0]] [[1]; [2]] [0; 0]
                      [false; true] [false; false] in
  let ds := mkDataset [[0]; [1]; [2]; [3]] [[0]; [0]; [0]; [0]]
                      [[1]; [2]; [3]; [4]] [0; 0; 0; 0]
                      [false; false; false; false]
                      [false; false; false; false] in
  columns_match_size (convert_d4rl demo_buffer de [true; true])
  /\ size (convert_d4rl demo_buffer de [true; true])
     = length (observations de)
  /\ columns_match_size
       (convert_d4rl demo_buffer ds [false; false; true; true])
  /\ size (convert_d4rl demo_buffer ds [false; false; true; true])
     = length (observations ds).
Proof.
  exact (@get_datasets_fill_buffers demo_episodes demo_dataset 1 1 1 _ _ _ _
           demo_buffer demo_buffer demo_get_datasets).
Defined.

Lemma get_datasets_flags_mark_origin_witness :
  let de := mkDataset [[0]; [1]] [[0]; [0]] [[1]; [2]] [0; 0]
                      [false; true] [false; false] in
  let ds := mkDataset [[0]; [1]; [2]; [3]] [[0]; [0]; [0]; [0]]
                      [[1]; [2]; [3]; [4]] [0; 0; 0; 0]
                      [false; false; false; false]
                      [false; false; false; false] in
  [true; true] = repeat true (length (observations de))
  /\ exists seed extra,
       dataset_m_trajs demo_dataset 1 false = ok seed
       /\ dataset_split_expert demo_episodes 1 (1 + 1) false
          = ok (de, extra)
       /\ match extra with
          | None =>
              ds = seed
              /\ [false; false; true; true]
                 = repeat false (length (observations seed))
          | Some x =>
              observations ds = observations seed ++ observations x
              /\ actions ds = actions seed ++ actions x
              /\ rewards ds = rewards seed ++ rewards x
              /\ [false; false; true; true]
                 = repeat false (length (observations seed))
                   ++ repeat true (length (observations x))
          end.
Proof.
  exact (@get_datasets_flags_mark_origin demo_episodes demo_dataset 1 1 1
           _ _ _ _ demo_get_datasets).
Defined.

(** ** A dataset that stops right after an episode end *)

Lemma pick_all (trajs : list (list Step)) :
  pick trajs (seq 0 (length trajs)) = trajs.
Proof.
  unfold pick. induction trajs as [|t trajs IH]; [reflexivity|].
  cbn [length seq map nth]. f_equal.
  rewrite <- seq_shift, map_map. exact IH.
Qed.

Lemma concat_dataset_mixed (c0 : list Step) (closed : list (list Step)) :
  c0 <> [] -> concat_dataset ((c0 :: closed) ++ [[]]) = raise ValueError.
Proof.
  intros Hc0. unfold concat_dataset, concat_rows.
  cbn [app map forallb].
  assert (Hn : is_nil (map s_obs c0) = false)
    by (destruct c0; [contradiction | reflexivity]).
  rewrite Hn. cbn [negb andb orb].
  rewrite map_app, forallb_app. cbn [map forallb is_nil negb andb].
  rewrite andb_false_r. reflexivity.
Qed.

(** X7.  If the last row but one carries a terminal or timeout flag, the
    segmentation ends with an empty segment after at least one non-empty
    one; selecting all segments, that is, any count [m] of at least their
    number, makes [dataset_m_trajs] raise ValueError, an empty array and
    arrays of rows having different numbers of axes. *)
Theorem trailing_empty_segment_fails :
  forall (dataset : Dataset),
    raw_columns_agree dataset ->
    (2 <= length (rewards dataset))%nat ->
    final_timestep (step_at dataset (length (rewards dataset) - 2)) = true ->
    exists closed,
      trajectories dataset false = ok (closed ++ [[]])
      /\ closed <> []
      /\ forall m : Z,
           (Z.of_nat (length (closed ++ [[]])) <= m)%Z ->
           dataset_m_trajs dataset m false = raise ValueError.
Proof.
  intros dataset Hcols Hn Hfin.
  set (n := length (rewards dataset)) in *.
  assert (Hseq : seq 0 (n - 1) = seq 0 (n - 2) ++ [(n - 2)%nat]).
  { replace (n - 1)%nat with (S (n - 2)) by lia. apply seq_S. }
  destruct (@segment_structure dataset false (seq 0 (n - 1)) Hcols
              (range_rows _) [] [] (Forall_nil _) (Forall_nil _) eq_refl)
    as (closed & last_seg & Hseg & Hc & _ & _ & Hlen & _ & Hlast).
  assert (Hl : last_seg = []).
  { apply Hlast.
    - rewrite Hseq. destruct (seq 0 (n - 2)); discriminate.
    - rewrite Hseq, last_last. exact Hfin. }
  subst last_seg.
  assert (Hne : closed <> []).
  { rewrite Hseq, map_app, filter_app in Hlen. simpl in Hlen.
    rewrite Hfin in Hlen. rewrite length_app in Hlen. simpl in Hlen.
    destruct closed; [simpl in Hlen; lia | discriminate]. }
  exists closed. split; [exact Hseg|]. split; [exact Hne|].
  intros m Hm. unfold dataset_m_trajs, trajectories. fold n.
  rewrite Hseg. cbn [bind ok]. cbv zeta.
  rewrite py_prefix_all by (rewrite length_seq; exact Hm).
  rewrite pick_all.
  destruct closed as [|c0 closed']; [congruence|].
  apply concat_dataset_mixed.
  inversion Hc as [|? ? (init & l & -> & _) _]. destruct init; discriminate.
Qed.

Lemma trailing_empty_segment_fails_witness :
  exists closed,
    trajectories demo_ended false = ok (closed ++ [[]])
    /\ closed <> []
    /\ forall m : Z,
         (Z.of_nat (length (closed ++ [[]])) <= m)%Z ->
         dataset_m_trajs demo_ended m false = raise ValueError.
Proof.
  apply (@trailing_empty_segment_fails demo_ended).
  - unfold raw_columns_agree. simpl. repeat split; reflexivity.
  - simpl. lia.
  - reflexivity.
Defined.

(** ** Loading, extending and standardizing a buffer *)

Lemma rows_at_map {A B : Type} (f : A -> B) (da : A) (db : B) (l : list A)
      (ind : list nat) :
  Forall (fun i => (i < length l)%nat) ind ->
  rows_at db (map f l) ind = map (fun i => f (nth i l da)) ind.
Proof.
  intros H. unfold rows_at. apply map_ext_in. intros i Hi.
  rewrite Forall_forall in H. specialize (H i Hi).
  rewrite (@nth_indep _ (map f l) i db (f da)) by (rewrite length_map; lia).
  apply map_nth.
Qed.

(** X8.  A minibatch drawn right after [convert_d4rl] of a non-empty
    dataset with equally long columns consists of rows of that dataset:
    every sampled weight is 1, every sampled not_done is 1 minus the
    terminal flag of its row and every sampled flag is the flag of its
    row, whatever the buffer held before. *)
Theorem loaded_buffer_sample :
  forall (rng : nat -> nat) (self : ReplayBuffer) (dataset : Dataset)
         (dataset_flag : list bool) (batch_size : nat),
    dataset_columns_agree dataset ->
    length dataset_flag = length (observations dataset) ->
    (1 <= length (observations dataset))%nat ->
    exists ind batch,
      sample rng (convert_d4rl self dataset dataset_flag) batch_size
      = ok batch
      /\ length ind = batch_size
      /\ Forall (fun i => (i < length (observations dataset))%nat) ind
      /\ b_state batch = rows_at [] (observations dataset) ind
      /\ b_action batch = rows_at [] (actions dataset) ind
      /\ b_weight batch = repeat 1 batch_size
      /\ b_not_done batch
         = map (fun i => 1 - b2r (nth i (terminals dataset) false)) ind
      /\ b_flag batch = map (fun i => b2r (nth i dataset_flag false)) ind.
Proof.
  intros rng self dataset dflag B (D1 & D2 & D3 & D4 & D5) Hf Hn.
  set (buf := convert_d4rl self dataset dflag).
  assert (Hcov : columns_cover_size buf).
  { apply columns_match_cover. apply convert_d4rl_columns; assumption. }
  destruct (@sample_nonempty rng buf B Hn Hcov) as (ind & Hlen & Hall & Hs).
  exists ind. eexists. split; [exact Hs|].
  change (size buf) with (length (observations dataset)) in Hall.
  split; [exact Hlen|]. split; [exact Hall|].
  cbn [b_state b_action b_weight b_not_done b_flag buf convert_d4rl
       state action weight not_done flag].
  split; [reflexivity|]. split; [reflexivity|]. split; [|split].
  - rewrite (@rows_at_map _ _ (fun _ => 1) 0 0)
      by (eapply Forall_lt_le; [|exact Hall]; lia).
    rewrite map_const. congruence.
  - apply (@rows_at_map _ _ (fun t => 1 - b2r t) false 0).
    eapply Forall_lt_le; [|exact Hall]. lia.
  - apply (@rows_at_map _ _ b2r false 0).
    eapply Forall_lt_le; [|exact Hall]. lia.
Qed.

Lemma loaded_buffer_sample_witness :
  exists ind batch,
    sample demo_rng (convert_d4rl demo_buffer demo_dataset
                                  [false; false; false]) 2
    = ok batch
    /\ length ind = 2%nat
    /\ Forall (fun i => (i < length (observations demo_dataset))%nat) ind
    /\ b_state batch = rows_at [] (observations demo_dataset) ind
    /\ b_action batch = rows_at [] (actions demo_dataset) ind
    /\ b_weight batch = repeat 1 2
    /\ b_not_done batch
       = map (fun i => 1 - b2r (nth i (terminals demo_dataset) false)) ind
    /\ b_flag batch
       = map (fun i => b2r (nth i [false; false; false] false)) ind.
Proof.
  apply (@loaded_buffer_sample demo_rng demo_buffer demo_dataset
           [false; false; false] 2).
  - unfold dataset_columns_agree. simpl. repeat split; reflexivity.
  - reflexivity.
  - simpl. lia.
Defined.

Lemma take_row_app_left {A : Type} (x y : list A) (i : nat) :
  (i < length x)%nat -> take_rows (x ++ y) [i] = take_rows x [i].
Proof.
  intros H. simpl. rewrite nth_error_app1 by assumption. reflexivity.
Qed.

Lemma take_row_app_right {A : Type} (x y : list A) (i : nat) :
  (length x <= i)%nat ->
  take_rows (x ++ y) [i] = take_rows y [(i - length x)%nat].
Proof.
  intros H. simpl. rewrite nth_error_app2 by assumption. reflexivity.
Qed.

(** X9.  [add_transitions] appends: on a buffer whose columns have [size]
    rows, each of its rows is read at its old index afterwards, the rows
    of the added buffer follow at their index plus [size], and the new
    size is the sum of the two sizes. *)
Theorem add_transitions_appends :
  forall (self other : ReplayBuffer) (i : nat),
    columns_match_size self ->
    columns_match_size other ->
    size (add_transitions self other) = (size self + size other)%nat
    /\ ((i < size self)%nat ->
        index_batch (add_transitions self other) [i] = index_batch self [i])
    /\ ((size self <= i)%nat ->
        index_batch (add_transitions self other) [i]
        = index_batch other [(i - size self)%nat]).
Proof.
  intros self other i (H1 & H2 & H3 & H4 & H5 & H6 & H7 & H8)
         (K1 & _).
  split; [|split].
  - cbn [add_transitions size]. rewrite length_app. congruence.
  - intros Hi. unfold index_batch.
    cbn [add_transitions state action next_state reward not_done flag weight
         timeout].
    rewrite !take_row_app_left by congruence. reflexivity.
  - intros Hi. unfold index_batch.
    cbn [add_transitions state action next_state reward not_done flag weight
         timeout].
    rewrite (@take_row_app_right _ (state self)) by congruence.
    rewrite (@take_row_app_right _ (action self)) by congruence.
    rewrite (@take_row_app_right _ (next_state self)) by congruence.
    rewrite (@take_row_app_right _ (reward self)) by congruence.
    rewrite (@take_row_app_right _ (not_done self)) by congruence.
    rewrite (@take_row_app_right _ (flag self)) by congruence.
    rewrite (@take_row_app_right _ (weight self)) by congruence.
    rewrite (@take_row_app_right _ (timeout self)) by congruence.
    rewrite H1, H2, H3, H4, H5, H6, H7, H8. reflexivity.
Qed.

Lemma add_transitions_appends_witness :
  size (add_transitions demo_buffer demo_buffer)
  = (size demo_buffer + size demo_buffer)%nat
  /\ ((4 < size demo_buffer)%nat ->
      index_batch (add_transitions demo_buffer demo_buffer) [4%nat]
      = index_batch demo_buffer [4%nat])
  /\ ((size demo_buffer <= 4)%nat ->
      index_batch (add_transitions demo_buffer demo_buffer) [4%nat]
      = index_batch demo_buffer [(4 - size demo_buffer)%nat]).
Proof.
  exact (@add_transitions_appends demo_buffer demo_buffer 4
           demo_buffer_columns demo_buffer_columns).
Defined.

(** X10.  Adding transitions to a freshly constructed buffer keeps the
    pre-allocated rows: the size becomes the capacity plus the number of
    added rows, and every index below the capacity reads an all-zero
    transition with weight 1 and timeout 1. *)
Theorem add_to_fresh_buffer_keeps_allocated_rows :
  forall (state_dim action_dim capacity : nat) (other : ReplayBuffer)
         (i : nat),
    (i < capacity)%nat ->
    size (add_transitions (ReplayBuffer_init state_dim action_dim capacity)
                          other)
    = (capacity + length (state other))%nat
    /\ index_batch
         (add_transitions (ReplayBuffer_init state_dim action_dim capacity)
                          other) [i]
       = ok (mkBatch [repeat 0 state_dim] [repeat 0 action_dim]
                     [repeat 0 state_dim] [0] [0] [0] [1] [1]).
Proof.
  intros sd ad cap other i Hi. split.
  - cbn [add_transitions size ReplayBuffer_init state].
    rewrite length_app, repeat_length. reflexivity.
  - unfold index_batch.
    cbn [add_transitions ReplayBuffer_init state action next_state reward
         not_done flag weight timeout take_rows].
    rewrite !nth_error_app1 by (rewrite repeat_length; exact Hi).
    rewrite !nth_error_repeat by exact Hi. reflexivity.
Qed.

Lemma add_to_fresh_buffer_keeps_allocated_rows_witness :
  size (add_transitions (ReplayBuffer_init 1 1 100) demo_buffer)
  = (100 + length (state demo_buffer))%nat
  /\ index_batch (add_transitions (ReplayBuffer_init 1 1 100) demo_buffer)
                 [7%nat]
     = ok (mkBatch [repeat 0 1] [repeat 0 1] [repeat 0 1] [0] [0] [0] [1]
                   [1]).
Proof.
  apply (@add_to_fresh_buffer_keeps_allocated_rows 1 1 100 demo_buffer 7).
  lia.
Defined.

Lemma nth_error_map_rows {A B : Type} (f : A -> B) (l : list A) (i : nat) :
  nth_error (map f l) i = option_map f (nth_error l i).
Proof.
  revert i. induction l as [|a l IH]; intros [|i]; simpl; auto.
Qed.

(** X11.  [normalize_states] applies one and the same map to the states
    and to the next states and touches nothing else: where the next state
    of row i was the state of row i+1 it still is, and the other columns
    and the size are unchanged. *)
Theorem normalize_states_keeps_successor_link :
  forall (self : ReplayBuffer) (mean std : list R) (i : nat),
    nth_error (next_state self) i = nth_error (state self) (S i) ->
    nth_error (next_state (normalize_states self mean std)) i
    = nth_error (state (normalize_states self mean std)) (S i)
    /\ action (normalize_states self mean std) = action self
    /\ reward (normalize_states self mean std) = reward self
    /\ not_done (normalize_states self mean std) = not_done self
    /\ weight (normalize_states self mean std) = weight self
    /\ size (normalize_states self mean std) = size self.
Proof.
  intros self mean std i H.
  cbn [normalize_states next_state state action reward not_done weight size].
  unfold standardize. rewrite !nth_error_map_rows, H.
  repeat split; reflexivity.
Qed.

Lemma normalize_states_keeps_successor_link_witness :
  nth_error (next_state (normalize_states demo_buffer [1] [2])) 0
  = nth_error (state (normalize_states demo_buffer [1] [2])) 1
  /\ action (normalize_states demo_buffer [1] [2]) = action demo_buffer
  /\ reward (normalize_states demo_buffer [1] [2]) = reward demo_buffer
  /\ not_done (normalize_states demo_buffer [1] [2]) = not_done demo_buffer
  /\ weight (normalize_states demo_buffer [1] [2]) = weight demo_buffer
  /\ size (normalize_states demo_buffer [1] [2]) = size demo_buffer.
Proof.
  exact (@normalize_states_keeps_successor_link demo_buffer [1] [2] 0
           eq_refl).
Defined.

(** ** Returns and relabelled rewards *)

(** X12.  [cal_returns] returns the empty array for all rewards, done
    flags and discounts: its loop runs over [range(len(rewards), -1)],
    which is empty, so no return is ever computed (and the loop body,
    which could not run on a list of done flags, is never reached). *)
Theorem cal_returns_always_empty :
  forall (rewards : list R) (dones : list bool) (discount : R),
    cal_returns rewards dones discount = ok [].
Proof.
  intros rewards dones discount. unfold cal_returns, py_range.
  replace (Z.to_nat (-1 - Z.of_nat (length rewards))) with 0%nat by lia.
  reflexivity.
Qed.

Lemma ln_le (x y : R) : 0 < x -> x <= y -> ln x <= ln y.
Proof.
  intros Hx [H|<-]; [left; apply ln_increasing; assumption | right; reflexivity].
Qed.

Lemma log_odds_bounds (d : R) :
  0.1 <= d <= 0.9 -> - ln 9 <= ln (d / (1 - d)) <= ln 9.
Proof.
  intros Hd.
  assert (Hlo : / 9 <= d / (1 - d)).
  { apply Rmult_le_reg_r with (1 - d); [lra|].
    unfold Rdiv. rewrite Rmult_assoc, Rinv_l by lra. lra. }
  assert (Hhi : d / (1 - d) <= 9).
  { apply Rmult_le_reg_r with (1 - d); [lra|].
    unfold Rdiv. rewrite Rmult_assoc, Rinv_l by lra. lra. }
  assert (H9 : 0 < / 9) by (apply Rinv_0_lt_compat; lra).
  split.
  - rewrite <- ln_Rinv by lra. apply ln_le; assumption.
  - apply ln_le; lra.
Qed.

Lemma log_odds_value (D : Discriminator) (o a : list R) (r : R) :
  log_odds D o a = inr r -> - ln 9 <= r <= ln 9.
Proof.
  unfold log_odds.
  pose proof (discriminator_scores_clipped D [o] [a]) as Hclip.
  destruct (forward D [o] [a]) as [|[|d [|? ?]] [|? ?]]; try discriminate.
  intros H. inversion H; subst r.
  inversion Hclip as [|? ? Hrow _]. inversion Hrow as [|? ? Hd _].
  apply log_odds_bounds. lra.
Qed.

Lemma set_nth_spec {A : Type} (d : A) (i : nat) (v : A) (l l' : list A) :
  set_nth i v l = inr l' ->
  length l' = length l /\ nth i l' d = v
  /\ forall j, j <> i -> nth j l' d = nth j l d.
Proof.
  revert i l'. induction l as [|a l IH]; intros [|i] l'; simpl;
    try discriminate.
  - intros H. inversion H. repeat split; auto.
    intros [|j] Hj; [congruence | reflexivity].
  - destruct (set_nth i v l) as [|l1] eqn:E; simpl; [discriminate|].
    intros H. inversion H; subst l'; clear H.
    destruct (IH i l1 E) as (Hlen & Hi & Hj).
    simpl. repeat split; auto.
    intros [|j] Hne; [reflexivity | apply Hj; congruence].
Qed.

Lemma set_nth_returns {A : Type} (i : nat) (v : A) (l : list A) :
  (i < length l)%nat -> exists l', set_nth i v l = inr l'.
Proof.
  revert i. induction l as [|a l IH]; intros [|i] H; simpl in *; try lia.
  - eexists; reflexivity.
  - destruct (IH i ltac:(lia)) as (l1 & ->). simpl. eexists; reflexivity.
Qed.

Lemma relabel_spec (D : Discriminator) (obs acts : list (list R))
      (range : list nat) :
  forall rewards rewards',
    relabel D obs acts range rewards = inr rewards' ->
    length rewards' = length rewards
    /\ (forall i, In i range -> - ln 9 <= nth i rewards' 0 <= ln 9)
    /\ (forall i, ~ In i range -> nth i rewards' 0 = nth i rewards 0).
Proof.
  induction range as [|i range IH]; intros rewards rewards'; simpl.
  - intros H. inversion H. split; [reflexivity|]. split.
    + intros j [].
    + reflexivity.
  - destruct (lookupX obs i) as [|o]; simpl; [discriminate|].
    destruct (lookupX acts i) as [|a]; simpl; [discriminate|].
    destruct (log_odds D o a) as [|r] eqn:Er; simpl; [discriminate|].
    destruct (set_nth i r rewards) as [|rewards1] eqn:Es; simpl;
      [discriminate|].
    intros H. apply IH in H. destruct H as (Hlen & Hin & Hout).
    destruct (set_nth_spec 0 _ _ _ Es) as (Hlen1 & Hi1 & Hj1).
    split; [congruence|]. split.
    + intros j [<-|Hj]; [|apply Hin; exact Hj].
      destruct (in_dec Nat.eq_dec i range) as [Hi|Hi]; [apply Hin; exact Hi|].
      rewrite (Hout i Hi), Hi1. eapply log_odds_value. exact Er.
    + intros j Hj. rewrite Hout by (intros Hc; apply Hj; right; exact Hc).
      apply Hj1. intros ->. apply Hj. left. reflexivity.
Qed.

Lemma log_odds_inv (D : Discriminator) (o a : list R) (r : R) :
  log_odds D o a = inr r ->
  exists d, forward D [o] [a] = [[d]] /\ 0.1 <= d <= 0.9
            /\ r = ln (d / (1 - d)).
Proof.
  unfold log_odds.
  pose proof (discriminator_scores_clipped D [o] [a]) as Hclip.
  destruct (forward D [o] [a]) as [|[|d [|? ?]] [|? ?]]; try discriminate.
  intros H. inversion H; subst r.
  inversion Hclip as [|? ? Hrow _]. inversion Hrow as [|? ? Hd _].
  exists d. split; [reflexivity|]. split; [lra | reflexivity].
Qed.

Lemma relabel_values (D : Discriminator) (obs acts : list (list R))
      (range : list nat) :
  forall rewards rewards',
    relabel D obs acts range rewards = inr rewards' ->
    forall i, In i range ->
      exists d,
        forward D [nth i obs []] [nth i acts []] = [[d]]
        /\ 0.1 <= d <= 0.9
        /\ nth i rewards' 0 = ln (d / (1 - d)).
Proof.
  induction range as [|i range IH]; intros rewards rewards'; simpl.
  - intros _ j [].
  - unfold lookupX.
    destruct (nth_error obs i) as [o|] eqn:Eo; simpl; [|discriminate].
    destruct (nth_error acts i) as [a|] eqn:Ea; simpl; [|discriminate].
    destruct (log_odds D o a) as [|r] eqn:Er; simpl; [discriminate|].
    destruct (set_nth i r rewards) as [|rewards1] eqn:Es; simpl;
      [discriminate|].
    intros H j Hj.
    destruct (in_dec Nat.eq_dec j range) as [Hin|Hout];
      [exact (IH _ _ H j Hin)|].
    destruct Hj as [<-|Hj]; [|contradiction].
    destruct (relabel_spec _ _ _ _ _ H) as (_ & _ & Hkeep).
    destruct (set_nth_spec 0 _ _ _ Es) as (_ & Hi1 & _).
    destruct (log_odds_inv _ _ _ Er) as (d & Hf & Hd & Hr).
    exists d. rewrite (nth_error_nth _ _ [] Eo), (nth_error_nth _ _ [] Ea).
    split; [exact Hf|]. split; [exact Hd|].
    rewrite (Hkeep i Hout), Hi1. exact Hr.
Qed.

(** X13.  When the relabelling loop of [label_offline_reward] returns,
    the reward column has its length; every relabelled row [i] holds the
    logarithmic odds [ln (d / (1 - d))] of the score [d] that the
    discriminator gives observation [i] and action [i], a score between
    0.1 and 0.9, so the reward lies between -ln 9 and ln 9; and the rows
    past the observations keep their reward. *)
Theorem relabelled_rewards_bounded :
  forall (D : Discriminator) (obs acts : list (list R))
         (rewards rewards' : list R),
    relabel D obs acts (seq 0 (length obs)) rewards = inr rewards' ->
    length rewards' = length rewards
    /\ (forall i, (i < length obs)%nat ->
          exists d,
            forward D [nth i obs []] [nth i acts []] = [[d]]
            /\ 0.1 <= d <= 0.9
            /\ nth i rewards' 0 = ln (d / (1 - d))
            /\ - ln 9 <= nth i rewards' 0 <= ln 9)
    /\ (forall i, (length obs <= i)%nat ->
                  nth i rewards' 0 = nth i rewards 0).
Proof.
  intros D obs acts rewards rewards' H.
  pose proof (relabel_values _ _ _ _ _ H) as Hval.
  apply relabel_spec in H. destruct H as (Hlen & Hin & Hout).
  split; [exact Hlen|]. split.
  - intros i Hi.
    destruct (Hval i ltac:(apply in_seq; lia)) as (d & Hf & Hd & Hr).
    exists d. split; [exact Hf|]. split; [exact Hd|]. split; [exact Hr|].
    apply Hin. apply in_seq. lia.
  - intros i Hi. apply Hout. intros Hc. apply in_seq in Hc. lia.
Qed.

Lemma log_odds_returns (D : Discriminator) (o a : list R) :
  length (weight_of (fc3 D)) = 1%nat -> length (bias_of (fc3 D)) = 1%nat ->
  exists r, log_odds D o a = inr r.
Proof.
  intros Hw Hb. unfold log_odds.
  pose proof (forward_rows D [o] [a]) as Hrows.
  pose proof (forward_width D [o] [a]) as Hwidth.
  rewrite Hw, Hb in Hwidth.
  destruct (forward D [o] [a]) as [|row rows]; [discriminate Hrows|].
  destruct rows as [|? ?]; [|discriminate Hrows].
  inversion Hwidth as [|? ? Hrow _].
  destruct row as [|d [|? ?]]; try discriminate.
  eexists; reflexivity.
Qed.

Lemma relabel_returns (D : Discriminator) (obs acts : list (list R))
      (range : list nat) :
  length (weight_of (fc3 D)) = 1%nat -> length (bias_of (fc3 D)) = 1%nat ->
  forall rewards,
    Forall (fun i => (i < length obs)%nat /\ (i < length acts)%nat
                     /\ (i < length rewards)%nat) range ->
    exists rewards',
      relabel D obs acts range rewards = inr rewards'
      /\ length rewards' = length rewards.
Proof.
  intros Hw Hb. induction range as [|i range IH]; intros rewards Hr; simpl.
  - eexists; split; reflexivity.
  - inversion Hr as [|? ? (Ho & Ha & Hrw) Hrest]; subst.
    unfold lookupX.
    rewrite (@nth_error_nth' _ obs i []) by assumption.
    rewrite (@nth_error_nth' _ acts i []) by assumption. simpl.
    destruct (@log_odds_returns D (nth i obs []) (nth i acts []) Hw Hb)
      as (r & ->). simpl.
    destruct (@set_nth_returns _ i r rewards Hrw) as (rewards1 & Hs).
    rewrite Hs. simpl.
    destruct (@set_nth_spec _ 0 _ _ _ _ Hs) as (Hlen1 & _).
    destruct (IH rewards1) as (rewards' & Hrel & Hlen).
    { eapply Forall_impl; [|exact Hrest]. simpl. intros; lia. }
    exists rewards'. split; [exact Hrel | congruence].
Qed.

(** X14.  [label_offline_reward] never returns on a dictionary that has
    observations but no entry under the key ['reward'], which line 58
    reads beside ['rewards']; when the observation, action and reward
    columns have equally many rows and the discriminator has one output
    unit, the exception is that KeyError. *)
Theorem label_offline_reward_key_error :
  forall (dataset : Dataset) (policy : Model)
         (use_reward_scaling use_offline : bool),
    observations dataset <> [] ->
    (exists e,
        label_offline_reward dataset None policy use_reward_scaling
                             use_offline = inl e)
    /\ (length (actions dataset) = length (observations dataset) ->
        length (rewards dataset) = length (observations dataset) ->
        length (weight_of (fc3 (discriminator policy))) = 1%nat ->
        length (bias_of (fc3 (discriminator policy))) = 1%nat ->
        label_offline_reward dataset None policy use_reward_scaling
                             use_offline = inl KeyError).
Proof.
  intros dataset policy scaling offline Hobs.
  assert (Hseq : exists r, seq 0 (length (observations dataset))
                           = 0%nat :: r).
  { destruct (observations dataset); [congruence|]. eexists; reflexivity. }
  destruct Hseq as (rest & Hseq).
  assert (Hkey : forall r_min r_max rewards,
             rescale None r_min r_max
                     (seq 0 (length (observations dataset))) rewards
             = inl KeyError).
  { intros. rewrite Hseq. reflexivity. }
  split.
  - unfold label_offline_reward. cbv zeta.
    destruct (if negb offline then _ else _) as [e|rewards1];
      [exists e; reflexivity|].
    cbn [bindX].
    destruct (py_max rewards1) as [e|r_max]; [exists e; reflexivity|].
    cbn [bindX].
    destruct (py_min rewards1) as [e|r_min]; [exists e; reflexivity|].
    cbn [bindX]. rewrite Hkey. exists KeyError. reflexivity.
  - intros Ha Hr Hw Hb. unfold label_offline_reward. cbv zeta.
    assert (Hfirst :
              exists rewards1,
                (if negb offline
                 then relabel (discriminator policy) (observations dataset)
                              (actions dataset)
                              (seq 0 (length (observations dataset)))
                              (rewards dataset)
                 else inr (rewards dataset)) = inr rewards1
                /\ length rewards1 = length (rewards dataset)).
    { destruct offline; simpl.
      - eexists; split; reflexivity.
      - apply relabel_returns; auto.
        apply Forall_forall. intros i Hi. apply in_seq in Hi. lia. }
    destruct Hfirst as (rewards1 & -> & Hlen1). cbn [bindX].
    destruct rewards1 as [|x rewards1].
    { destruct (observations dataset); simpl in *; [congruence | lia]. }
    cbn [py_max py_min bindX]. rewrite Hkey. reflexivity.
Qed.

Lemma relabelled_rewards_bounded_witness :
  length [ln (clip 0.1 0.9 (sigmoid (-1)) / (1 - clip 0.1 0.9 (sigmoid (-1))));
          7]
  = length [5; 7]
  /\ (forall i, (i < length [[0]])%nat ->
        exists d,
          forward demo_discriminator [nth i [[0]] []] [nth i [[0]] []]
          = [[d]]
          /\ 0.1 <= d <= 0.9
          /\ nth i [ln (clip 0.1 0.9 (sigmoid (-1))
                        / (1 - clip 0.1 0.9 (sigmoid (-1)))); 7] 0
             = ln (d / (1 - d))
          /\ - ln 9
             <= nth i [ln (clip 0.1 0.9 (sigmoid (-1))
                           / (1 - clip 0.1 0.9 (sigmoid (-1)))); 7] 0
             <= ln 9)
  /\ (forall i, (length [[0]] <= i)%nat ->
        nth i [ln (clip 0.1 0.9 (sigmoid (-1))
                   / (1 - clip 0.1 0.9 (sigmoid (-1)))); 7] 0
        = nth i [5; 7] 0).
Proof.
  apply (@relabelled_rewards_bounded demo_discriminator [[0]] [[0]] [5; 7]).
  unfold relabel, seq, length, lookupX, nth_error, bindX, log_odds, forward,
    cat1, linear, dot, zipWith, demo_discriminator. simpl.
  rewrite !relu_nonneg by (try rewrite relu_nonneg; lra).
  replace (1 * (1 * (1 * 0 + (0 * 0 + 0) + 0) + 0 + 0) + 0 + -1) with (-1)
    by lra.
  reflexivity.
Defined.

Lemma label_offline_reward_key_error_witness :
  (exists e,
      label_offline_reward demo_dataset None demo_model false false = inl e)
  /\ (length (actions demo_dataset) = length (observations demo_dataset) ->
      length (rewards demo_dataset) = length (observations demo_dataset) ->
      length (weight_of (fc3 (discriminator demo_model))) = 1%nat ->
      length (bias_of (fc3 (discriminator demo_model))) = 1%nat ->
      label_offline_reward demo_dataset None demo_model false false
      = inl KeyError).
Proof.
  apply (@label_offline_reward_key_error demo_dataset demo_model false false).
  discriminate.
Defined.

(** ** The size of the standard discriminator loss *)

Lemma neg_ln_bounds (x : R) :
  0.1 <= x <= 0.9 -> - ln 0.9 <= - ln x <= ln 10.
Proof.
  intros Hx. split.
  - apply Ropp_le_contravar. apply ln_le; lra.
  - assert (H : - ln 10 <= ln x).
    { rewrite <- ln_Rinv by lra. apply ln_le; [|lra].
      apply Rinv_0_lt_compat. lra. }
    lra.
Qed.

Lemma neg_ln_09_pos : 0 < - ln 0.9.
Proof.
  assert (H : ln 0.9 < ln 1) by (apply ln_increasing; lra).
  rewrite ln_1 in H. lra.
Qed.

Lemma Rsum_zipWith_bounds (f : R -> R -> R) (lo hi : R) (P : R -> Prop) :
  (forall e s, P e -> P s -> lo <= f e s <= hi) ->
  forall de ds,
    Forall P de -> Forall P ds -> length de = length ds ->
    INR (length de) * lo <= Rsum (zipWith f de ds) <= INR (length de) * hi.
Proof.
  intros Hf. induction de as [|e de IH]; intros [|s ds] He Hs Hlen;
    try discriminate.
  - simpl. lra.
  - inversion He; inversion Hs; subst.
    change (Rsum (zipWith f (e :: de) (s :: ds)))
      with (f e s + Rsum (zipWith f de ds)).
    change (length (e :: de)) with (S (length de)). rewrite S_INR.
    specialize (IH ds ltac:(assumption) ltac:(assumption)
                   ltac:(simpl in Hlen; lia)).
    specialize (Hf e s ltac:(assumption) ltac:(assumption)). lra.
Qed.

Lemma concat_unit_rows (m : list (list R)) :
  Forall (fun r => length r = 1%nat) m -> length (concat m) = length m.
Proof.
  induction 1 as [|r m Hr _ IH]; simpl; auto.
  rewrite length_app, Hr, IH. reflexivity.
Qed.

(** X15.  With [no_pu] set, the loss of a step on non-empty minibatches is
    positive and at most 2 ln 10, for every discriminator with one output
    unit: each of the two logarithms is taken of a number between 0.1 and
    0.9. *)
Theorem standard_loss_bounded :
  forall (rng_e rng_s : nat -> nat) (self : Model)
         (replay_buffer_e replay_buffer_s : ReplayBuffer) (batch_size : nat)
         (be bs : Batch),
    no_pu_learning self = true ->
    length (weight_of (fc3 (discriminator self))) = 1%nat ->
    length (bias_of (fc3 (discriminator self))) = 1%nat ->
    (1 <= batch_size)%nat ->
    sample rng_e replay_buffer_e batch_size = ok be ->
    sample rng_s replay_buffer_s batch_size = ok bs ->
    exists loss,
      train_discriminator_loss rng_e rng_s self replay_buffer_e
                               replay_buffer_s batch_size = ok loss
      /\ 0 < loss <= 2 * ln 10.
Proof.
  intros rng_e rng_s self rbe rbs B be bs Hpu Hw Hb HB He Hs.
  unfold train_discriminator_loss. rewrite He, Hs. simpl.
  destruct (sample_batch_rows _ _ _ He) as (E1 & E2 & _).
  destruct (sample_batch_rows _ _ _ Hs) as (S1 & S2 & _).
  set (D := discriminator self) in *.
  set (me := forward D (b_state be) (b_action be)).
  set (ms := forward D (b_state bs) (b_action bs)).
  assert (Hwe : Forall (fun r => length r = 1%nat) me).
  { pose proof (forward_width D (b_state be) (b_action be)) as H.
    rewrite Hw, Hb in H. exact H. }
  assert (Hws : Forall (fun r => length r = 1%nat) ms).
  { pose proof (forward_width D (b_state bs) (b_action bs)) as H.
    rewrite Hw, Hb in H. exact H. }
  assert (Hre : length me = B) by (unfold me; rewrite forward_rows; lia).
  assert (Hrs : length ms = B) by (unfold ms; rewrite forward_rows; lia).
  rewrite d_loss_same_shape
    by (eapply same_shape_of_width; [congruence | exact Hwe | exact Hws]).
  eexists. split; [reflexivity|].
  rewrite Hpu. unfold spec_d_loss.
  assert (Hle : length (concat me) = B)
    by (rewrite concat_unit_rows; assumption).
  assert (Hls : length (concat ms) = B)
    by (rewrite concat_unit_rows; assumption).
  pose proof (@Rsum_zipWith_bounds
                (fun e s => - ln e - ln (1 - s)) (2 * - ln 0.9) (2 * ln 10)
                (fun d => 0.1 <= d <= 0.9)) as Hsum.
  specialize (Hsum ltac:(intros e s Pe Ps;
                         pose proof (neg_ln_bounds Pe);
                         pose proof (@neg_ln_bounds (1 - s) ltac:(lra));
                         lra)).
  specialize (Hsum (concat me) (concat ms)
                   (proj2 (Forall_concat _ _)
                          (discriminator_scores_clipped D _ _))
                   (proj2 (Forall_concat _ _)
                          (discriminator_scores_clipped D _ _))
                   ltac:(congruence)).
  rewrite Hle in *.
  assert (HB' : 1 <= INR B) by (change 1 with (INR 1); apply le_INR; exact HB).
  pose proof neg_ln_09_pos as Hpos.
  set (total := Rsum _) in *.
  assert (Hinv : 0 < / INR B) by (apply Rinv_0_lt_compat; lra).
  assert (Hid : INR B * / INR B = 1) by (apply Rinv_r; lra).
  clearbody total. unfold Rdiv.
  assert (H1 : INR B * (2 * - ln 0.9) * / INR B <= total * / INR B)
    by (apply Rmult_le_compat_r; lra).
  assert (H2 : total * / INR B <= INR B * (2 * ln 10) * / INR B)
    by (apply Rmult_le_compat_r; lra).
  replace (INR B * (2 * - ln 0.9) * / INR B)
    with (2 * - ln 0.9 * (INR B * / INR B)) in H1 by ring.
  replace (INR B * (2 * ln 10) * / INR B)
    with (2 * ln 10 * (INR B * / INR B)) in H2 by ring.
  rewrite Hid in H1, H2. lra.
Qed.

Lemma standard_loss_bounded_witness :
  exists loss,
    train_discriminator_loss demo_rng demo_rng demo_model_standard
                             demo_buffer demo_buffer 2 = ok loss
    /\ 0 < loss <= 2 * ln 10.
Proof.
  apply (@standard_loss_bounded
           demo_rng demo_rng demo_model_standard demo_buffer demo_buffer 2
           (mkBatch [[0]; [0]] [[0]; [0]] [[0]; [2]] [0; 0] [1; 1] [0; 0]
                    [1; 1] [0; 0])
           (mkBatch [[0]; [0]] [[0]; [0]] [[0]; [2]] [0; 0] [1; 1] [0; 0]
                    [1; 1] [0; 0]));
    try reflexivity.
  lia.
Defined.

(** ** The actor *)

Lemma exp_le (x y : R) : x <= y -> exp x <= exp y.
Proof.
  intros [H|<-]; [left; apply exp_increasing; exact H | right; reflexivity].
Qed.

Lemma tanh_bounds (x : R) : -1 < tanh x < 1.
Proof.
  pose proof (exp_pos x) as Ha. pose proof (exp_pos (- x)) as Hb.
  assert (E : tanh x = (exp x - exp (- x)) / (exp x + exp (- x))).
  { unfold tanh, sinh, cosh. field. lra. }
  rewrite E. split.
  - apply Rmult_lt_reg_r with (exp x + exp (- x)); [lra|].
    unfold Rdiv. rewrite Rmult_assoc, Rinv_l by lra. lra.
  - apply Rmult_lt_reg_r with (exp x + exp (- x)); [lra|].
    unfold Rdiv. rewrite Rmult_assoc, Rinv_l by lra. lra.
Qed.

(** X16.  Whatever the parameters and the states, the Normal the actor
    builds has, for every state row and action coordinate, a mean between
    -9 and 9 and a scale between exp(-5) and exp(2), hence a positive
    one; there is one row of means and one of scales per state row. *)
Theorem actor_distribution_parameters_clipped :
  forall (self : Actor.t) (state : list (list R)),
    length (Actor.mu (Actor._get_outputs self state)) = length state
    /\ length (Actor.sigma (Actor._get_outputs self state)) = length state
    /\ Forall (Forall (fun m => -9 <= m <= 9))
              (Actor.mu (Actor._get_outputs self state))
    /\ Forall (Forall (fun s => exp (-5) <= s <= exp 2 /\ 0 < s))
              (Actor.sigma (Actor._get_outputs self state)).
Proof.
  intros self state. unfold Actor._get_outputs.
  cbn [Actor.mu Actor.sigma]. rewrite !length_map.
  split; [reflexivity|]. split; [reflexivity|]. split.
  - apply Forall_map, Forall_forall. intros row _.
    apply Forall_map, Forall_forall. intros m _.
    apply (@clip_bounds MEAN_MIN MEAN_MAX m).
    unfold MEAN_MIN, MEAN_MAX. lra.
  - apply Forall_map, Forall_map, Forall_forall. intros row _.
    apply Forall_map, Forall_map, Forall_forall. intros ls _.
    pose proof (@clip_bounds LOG_STD_MIN LOG_STD_MAX ls) as H.
    unfold LOG_STD_MIN, LOG_STD_MAX in *. specialize (H ltac:(lra)).
    split; [|apply exp_pos]. split; apply exp_le; lra.
Qed.

(** X17.  [select_action] on the reference policy raises AttributeError
    when the algorithm object was built without automatic alpha tuning;
    on a policy that exists it returns one action coordinate per output
    unit of [mu_head], each strictly between -1 and 1. *)
Theorem select_action_range :
  forall (self : Policies) (state : list R),
    (policy_e self = None ->
     select_action self state true = inl AttributeError)
    /\ (forall (is_policy_e : bool) (net : Actor.t),
          (if is_policy_e then policy_e self = Some net
           else policy self = net) ->
          exists action,
            select_action self state is_policy_e = inr action
            /\ length action
               = Nat.min (length (weight_of (Actor.mu_head net)))
                         (length (bias_of (Actor.mu_head net)))
            /\ Forall (fun a => -1 < a < 1) action).
Proof.
  intros self state. split.
  - intros H. unfold select_action. rewrite H. reflexivity.
  - intros b net Hnet. unfold select_action.
    destruct b; [rewrite Hnet | subst net]; cbn [bindX];
      (eexists; split; [reflexivity|];
       unfold Actor._get_outputs; cbn [Actor.a_tanh_mode map concat];
       rewrite app_nil_r, !length_map; unfold linear;
       rewrite zipWith_length, length_map; split; [reflexivity|];
       apply Forall_map, Forall_forall; intros m _; apply tanh_bounds).
Qed.

Lemma select_action_range_witness :
  select_action (mkPolicies demo_actor None) [1] true = inl AttributeError
  /\ exists action,
       select_action (mkPolicies demo_actor None) [1] false = inr action
       /\ length action = Nat.min 1 1
       /\ Forall (fun a => -1 < a < 1) action.
Proof.
  split.
  - exact (proj1 (@select_action_range (mkPolicies demo_actor None) [1])
                 eq_refl).
  - exact (proj2 (@select_action_range (mkPolicies demo_actor None) [1])
                 false demo_actor eq_refl).
Defined.

(** ** select_data: which rows are retained, and with which weight *)

Lemma zipWith_nth {A B C : Type} (f : A -> B -> C) (l : list A) (m : list B)
      (i : nat) (da : A) (db : B) (dc : C) :
  length l = length m -> (i < length l)%nat ->
  nth i (zipWith f l m) dc = f (nth i l da) (nth i m db).
Proof.
  revert m i. induction l as [|a l IH]; intros [|b m] i Hl Hi; simpl in *;
    try lia.
  destruct i; [reflexivity | apply IH; lia].
Qed.

Lemma rollback_iter_step (self : Model) (state action : list (list R))
      (done : list nat) (bar decay : R) (k : nat) (mask mask' : list bool)
      (w w' : list R) (wd wd' : R) :
  length (ge_mask (forward (discriminator self) state action) bar)
  = length mask ->
  length w = length mask ->
  rollback_iter self state action done bar decay k (mask, w, wd)
  = ok (mask', w', wd') ->
  wd' = wd * decay /\ length mask' = length mask /\ length w' = length mask
  /\ (forall i, nth i mask' false
                = nth i mask false
                  || ((i + k + 1 <? length mask)%nat
                      && nth (i + k + 1)
                             (clear_heads k done 0
                                (ge_mask (forward (discriminator self) state
                                                  action) bar)) false))
  /\ (forall i, nth i w' 0
                = if nth i mask' false && Rltb (nth i w 0) wd
                  then wd else nth i w 0).
Proof.
  intros Hlen Hw. unfold rollback_iter. simpl.
  destruct (@or_shift_same_length k mask
              (clear_heads k done 0
                 (ge_mask (forward (discriminator self) state action) bar)))
    as (m1 & Hor & Hl & Hn).
  { rewrite clear_heads_length. exact Hlen. }
  rewrite Hor. simpl. unfold raise_weights.
  replace (length m1 =? length w)%nat with true
    by (symmetry; apply Nat.eqb_eq; congruence).
  simpl. intros H. inversion H; subst mask' w' wd'; clear H.
  split; [reflexivity|]. split; [exact Hl|].
  split; [rewrite zipWith_length; lia|]. split; [exact Hn|].
  intros i. destruct (Nat.lt_ge_cases i (length m1)) as [Hi|Hi].
  - rewrite (@zipWith_nth _ _ _ _ m1 w i false 0 0) by congruence.
    reflexivity.
  - rewrite (nth_overflow m1) by exact Hi.
    rewrite !nth_overflow; [reflexivity | lia | rewrite zipWith_length; lia].
Qed.




Lemma rollback_loop_mask (self : Model) (state action : list (list R))
      (done : list nat) (bar decay : R) (n : nat) :
  forall (a : nat) (mask mask' : list bool) (w w' : list R) (wd wd' : R),
    length (ge_mask (forward (discriminator self) state action) bar)
    = length mask ->
    length w = length mask ->
    rollback_loop self state action done bar decay (seq a n) (mask, w, wd)
    = ok (mask', w', wd') ->
    length mask' = length mask /\ length w' = length mask
    /\ forall i,
         nth i mask' false = true
         <-> nth i mask false = true
             \/ exists k, (a <= k < a + n)%nat
                          /\ (i + k + 1 < length mask)%nat
                          /\ nth (i + k + 1)
                                 (clear_heads k done 0
                                    (ge_mask (forward (discriminator self)
                                                      state action) bar))
                                 false = true.
Proof.
  induction n as [|n IH]; intros a mask mask' w w' wd wd' Hlen Hw; simpl.
  - intros H. inversion H; subst. split; [reflexivity|].
    split; [exact Hw|]. intros i. split; [auto|].
    intros [Hm | (k & Hk & _)]; [exact Hm | lia].
  - destruct (rollback_iter self state action done bar decay a (mask, w, wd))
      as [|[[m1 w1] wd1]] eqn:E; simpl; [discriminate|].
    intros Hloop.
    destruct (@rollback_iter_step _ _ _ _ _ _ _ _ _ _ _ _ _ Hlen Hw E)
      as (_ & Hm1 & Hw1 & Hn1 & _).
    destruct (IH (S a) m1 mask' w1 w' wd1 wd' ltac:(congruence)
                 ltac:(congruence) Hloop) as (Hm' & Hw' & Hn').
    split; [congruence|]. split; [congruence|].
    intros i. rewrite Hn', Hn1, Hm1. split.
    + intros [Hor | (k & Hk & Hik & Hc)].
      * apply orb_true_iff in Hor. destruct Hor as [Hm | Hand];
          [left; exact Hm|].
        apply andb_true_iff in Hand. destruct Hand as [Hlt Hc].
        apply Nat.ltb_lt in Hlt. right. exists a.
        split; [lia|]. split; assumption.
      * right. exists k. split; [lia|]. split; assumption.
    + intros [Hm | (k & Hk & Hik & Hc)].
      * left. rewrite Hm. reflexivity.
      * destruct (Nat.eq_dec k a) as [->|Hne].
        -- left. apply orb_true_iff. right. apply andb_true_iff.
           split; [apply Nat.ltb_lt; exact Hik | exact Hc].
        -- right. exists k. split; [lia|]. split; assumption.
Qed.

Lemma pow_schedule_pos (weight_init decay : R) (j : nat) :
  0 < weight_init -> 0 < decay -> 0 < weight_init * decay ^ j.
Proof.
  intros Hw Hd. apply Rmult_lt_0_compat; [exact Hw|].
  apply pow_lt. exact Hd.
Qed.

Lemma rollback_loop_on_schedule (self : Model) (state action : list (list R))
      (done : list nat) (bar decay weight_init : R) (n : nat) :
  0 < weight_init -> 0 < decay ->
  forall (a : nat) (mask mask' : list bool) (w w' : list R) (wd' : R),
    length (ge_mask (forward (discriminator self) state action) bar)
    = length mask ->
    length w = length mask ->
    on_schedule weight_init decay a mask w ->
    rollback_loop self state action done bar decay (seq a n)
                  (mask, w, weight_init * decay ^ a) = ok (mask', w', wd') ->
    on_schedule weight_init decay (a + n) mask' w'.
Proof.
  intros Hwi Hd.
  induction n as [|n IH]; intros a mask mask' w w' wd' Hlen Hw Hinv; simpl.
  - intros H. inversion H; subst. rewrite Nat.add_0_r. exact Hinv.
  - destruct (rollback_iter self state action done bar decay a
                (mask, w, weight_init * decay ^ a))
      as [|[[m1 w1] wd1]] eqn:E; simpl; [discriminate|].
    intros Hloop.
    destruct (@rollback_iter_step _ _ _ _ _ _ _ _ _ _ _ _ _ Hlen Hw E)
      as (Hwd1 & Hm1 & Hw1 & Hn1 & Hv1).
    assert (Hwd : wd1 = weight_init * decay ^ S a) by (subst wd1; simpl; ring).
    rewrite Hwd in Hloop.
    replace (a + S n)%nat with (S a + n)%nat by lia.
    apply (IH (S a) m1 mask' w1 w' wd'); [congruence | congruence | | exact Hloop].
    intros i. specialize (Hinv i). destruct Hinv as [Hout Hin].
    pose proof (pow_schedule_pos a Hwi Hd) as Hpos.
    rewrite Hv1. split.
    + intros Hf. rewrite Hf. simpl. apply Hout.
      rewrite Hn1 in Hf. apply orb_false_iff in Hf. tauto.
    + intros Ht. rewrite Ht. simpl. right.
      unfold Rltb. destruct (Rlt_dec (nth i w 0) (weight_init * decay ^ a))
        as [Hlt|Hge].
      * exists a. split; [lia | reflexivity].
      * destruct (nth i mask false) eqn:Em.
        -- destruct (Hin eq_refl) as [[_ H0] | (j & Hj & Hv)]; [lra|].
           exists j. split; [lia | exact Hv].
        -- specialize (Hout eq_refl). lra.
Qed.

Lemma bool_index_Forall {A : Type} (P : A -> Prop) (d : A) (x : list A) :
  forall mask : list bool,
    (forall i, (i < length x)%nat -> nth i mask false = true ->
               P (nth i x d)) ->
    Forall P (bool_index x mask).
Proof.
  induction x as [|a x IH]; intros [|b mask] H; simpl; auto.
  assert (Hrest : Forall P (bool_index x mask)).
  { apply IH. intros i Hi Hm. apply (H (S i)); simpl; [lia | exact Hm]. }
  destruct b; [|exact Hrest].
  constructor; [|exact Hrest]. apply (H 0%nat); simpl; [lia | reflexivity].
Qed.

Lemma reset_weights_nth (w : list R) (i : nat) :
  Forall (fun x => x = 1) w -> nth i (map (fun x => x - 1) w) 0 = 0.
Proof.
  intros H. revert i. induction H as [|x w Hx _ IH]; intros [|i]; simpl;
    auto.
  lra.
Qed.

Lemma reset_weights_on_schedule (weight_init decay : R) (mask : list bool)
      (w : list R) :
  Forall (fun x => x = 1) w ->
  on_schedule weight_init decay 0 mask (map (fun x => x - 1) w).
Proof.
  intros H i. split; intros _; [|left; split; [reflexivity|]];
    apply reset_weights_nth; exact H.
Qed.

Lemma select_data_from_schedule (self : Model) (mask : list bool)
      (buf : ReplayBuffer) (bar : R) (rollback : nat)
      (decay weight_init : R) :
  columns_match_size buf ->
  (2 <= size buf)%nat ->
  length mask = size buf ->
  length (ge_mask (forward (discriminator self) (state buf) (action buf)) bar)
  = size buf ->
  Forall (fun x => x = 1) (weight buf) ->
  0 < weight_init -> 0 < decay ->
  exists (not_done' : list R) (kept : list bool) (w' : list R),
    length not_done' = size buf
    /\ length kept = size buf /\ length w' = size buf
    /\ on_schedule weight_init decay rollback kept w'
    /\ (forall i, nth i mask false = true -> nth i kept false = true)
    /\ ((forall i, nth i mask false = false) ->
        (forall j, nth j (ge_mask (forward (discriminator self) (state buf)
                                           (action buf)) bar) false = false) ->
        forall i, nth i kept false = false)
    /\ select_data_from self mask buf bar rollback decay weight_init
       = ok {| max_size := max_size buf; ptr := ptr buf;
               size := count_true kept;
               state := bool_index (state buf) kept;
               action := bool_index (action buf) kept;
               next_state := bool_index (next_state buf) kept;
               reward := bool_index (reward buf) kept;
               not_done := bool_index not_done' kept;
               flag := bool_index (flag buf) kept;
               weight := bool_index w' kept;
               timeout := timeout buf |}.
Proof.
  intros Hbuf Hsize Hm Hi Hone Hwi Hd.
  destruct (@select_data_from_run self mask buf bar rollback decay
              weight_init Hbuf Hsize Hm Hi)
    as (nd' & kept & w' & wd' & Hset & Hloop & Hk & Hw' & Hsel).
  destruct Hbuf as (_ & _ & _ & _ & Hnd & _ & Hwl & _).
  assert (Hl0 : length (map (fun x => x - 1) (weight buf)) = length mask)
    by (rewrite length_map; congruence).
  assert (Hr0 : length (ge_mask (forward (discriminator self) (state buf)
                                         (action buf)) bar) = length mask)
    by congruence.
  exists nd', kept, w'.
  split; [destruct (@set_last_shape _ _ _ Hset) as (_ & Hnl & _); congruence|].
  split; [exact Hk|]. split; [exact Hw'|].
  destruct (@rollback_loop_mask _ _ _ _ _ _ _ _ _ _ _ _ _ _ Hr0 Hl0 Hloop)
    as (_ & _ & Hn).
  split; [|split; [|split; [|exact Hsel]]].
  - apply (@rollback_loop_on_schedule
             self (state buf) (action buf)
             (boundaries nd' (timeout buf)) bar decay weight_init rollback
             Hwi Hd 0%nat mask kept (map (fun x => x - 1) (weight buf)) w'
             wd' Hr0 Hl0).
    + apply reset_weights_on_schedule. exact Hone.
    + simpl. rewrite Rmult_1_r. exact Hloop.
  - intros i Hmi. apply Hn. left. exact Hmi.
  - intros Hnone Hraw i.
    destruct (nth i kept false) eqn:E; [|reflexivity].
    apply Hn in E. destruct E as [E | (k & _ & _ & Hc)].
    + rewrite Hnone in E. discriminate E.
    + apply clear_heads_nth in Hc. destruct Hc as [Hc _].
      rewrite Hraw in Hc. discriminate Hc.
Qed.

(** X18.  The part of [select_data] after the base mask (lines 498-525)
    on a buffer whose weights are all 1, as [convert_d4rl] leaves them,
    with [weight_init > 0] and [decay > 0]: it returns a buffer with one
    weight per retained row.  With [rollback = 0] every retained weight is
    0; with [rollback >= 1] every retained weight is positive and is the
    value [weight_init * decay^j] of one of the passes [j < rollback]. *)
Theorem select_data_weights_on_schedule :
  forall (self : Model) (mask : list bool) (buf : ReplayBuffer) (bar : R)
         (rollback : nat) (decay weight_init : R),
    columns_match_size buf ->
    (2 <= size buf)%nat ->
    length mask = size buf ->
    length (ge_mask (forward (discriminator self) (state buf) (action buf))
                    bar) = size buf ->
    Forall (fun x => x = 1) (weight buf) ->
    0 < weight_init -> 0 < decay ->
    exists buf',
      select_data_from self mask buf bar rollback decay weight_init = ok buf'
      /\ length (weight buf') = size buf'
      /\ (rollback = 0%nat -> Forall (fun x => x = 0) (weight buf'))
      /\ ((1 <= rollback)%nat ->
          Forall (fun x => 0 < x
                           /\ exists j, (j < rollback)%nat
                                        /\ x = weight_init * decay ^ j)
                 (weight buf')).
Proof.
  intros self mask buf bar rollback decay weight_init Hbuf Hsize Hm Hi Hone
         Hwi Hd.
  destruct (@select_data_from_schedule self mask buf bar rollback decay
              weight_init Hbuf Hsize Hm Hi Hone Hwi Hd)
    as (nd' & kept & w' & _ & Hk & Hw' & Hinv & _ & _ & Hsel).
  eexists. split; [exact Hsel|]. cbn [weight size].
  split; [apply bool_index_length; congruence|]. split.
  - intros H0. apply (@bool_index_Forall _ _ 0). intros i _ Hki.
    destruct (Hinv i) as [_ Hin].
    destruct (Hin Hki) as [[_ H] | (j & Hj & _)]; [exact H | lia].
  - intros H1. apply (@bool_index_Forall _ _ 0). intros i _ Hki.
    destruct (Hinv i) as [_ Hin].
    destruct (Hin Hki) as [[H _] | (j & Hj & Hv)]; [lia|].
    split; [rewrite Hv; apply pow_schedule_pos; assumption|].
    exists j. split; assumption.
Qed.

Lemma select_data_weights_on_schedule_witness :
  exists buf',
    select_data_from demo_model [false; false; true] demo_buffer 0.5 1 0.5 1
    = ok buf'
    /\ length (weight buf') = size buf'
    /\ (1%nat = 0%nat -> Forall (fun x => x = 0) (weight buf'))
    /\ ((1 <= 1)%nat ->
        Forall (fun x => 0 < x
                         /\ exists j, (j < 1)%nat /\ x = 1 * 0.5 ^ j)
               (weight buf')).
Proof.
  apply (@select_data_weights_on_schedule
           demo_model [false; false; true] demo_buffer 0.5 1 0.5 1).
  - exact demo_buffer_columns.
  - simpl. lia.
  - reflexivity.
  - reflexivity.
  - repeat constructor.
  - lra.
  - lra.
Defined.

Lemma pow_le_earlier (decay : R) (j k : nat) :
  0 < decay <= 1 -> (j <= k)%nat -> decay ^ k <= decay ^ j.
Proof.
  intros Hd Hjk. induction Hjk as [|k Hjk IH]; [lra|].
  simpl. assert (0 < decay ^ k) by (apply pow_lt; lra). nra.
Qed.

Lemma zeros_on_schedule (weight_init decay : R) (mask : list bool)
      (w : list R) :
  Forall (fun x => x = 0) w -> on_schedule weight_init decay 0 mask w.
Proof.
  intros H.
  assert (Hz : forall i, nth i w 0 = 0).
  { induction H as [|x w Hx _ IH]; intros [|i]; simpl; auto. }
  intros i. split; intros _; [|left; split; [reflexivity|]]; apply Hz.
Qed.

(** X19.  The weight of a row records the pass in which the rollback loop
    first retained it.  Start the loop on a weight column of zeros, as
    line 503 leaves a freshly loaded one, with [weight_init > 0] and
    [0 < decay <= 1], let the passes [0 .. k-1] have run and look at pass
    [k]: a row outside the mask after the pass has the weight 0; a row
    that the pass retains for the first time gets the weight
    [weight_init * decay^k]; a row retained before stays retained, and
    its weight is [weight_init] when [k = 0] (the rows of the base mask)
    and is left as it was in every later pass. *)
Theorem rollback_weight_records_first_retention :
  forall (self : Model) (state action : list (list R)) (done : list nat)
         (bar decay weight_init : R) (k : nat)
         (mask0 mask mask' : list bool) (w0 w w' : list R) (wd wd' : R),
    0 < weight_init -> 0 < decay <= 1 ->
    length (ge_mask (forward (discriminator self) state action) bar)
    = length mask0 ->
    length w0 = length mask0 ->
    Forall (fun x => x = 0) w0 ->
    rollback_loop self state action done bar decay (seq 0 k)
                  (mask0, w0, weight_init) = ok (mask, w, wd) ->
    rollback_iter self state action done bar decay k (mask, w, wd)
    = ok (mask', w', wd') ->
    forall i,
      (nth i mask' false = false -> nth i w' 0 = 0)
      /\ (nth i mask false = false -> nth i mask' false = true ->
          nth i w' 0 = weight_init * decay ^ k)
      /\ (nth i mask false = true ->
          nth i mask' false = true
          /\ nth i w' 0 = if (k =? 0)%nat then weight_init else nth i w 0).
Proof.
  intros self state action done bar decay weight_init k mask0 mask mask'
         w0 w w' wd wd' Hwi Hd Hlen Hw0 Hzero Hloop Hiter i.
  pose proof Hloop as Hwd. apply rollback_loop_decay in Hwd.
  destruct (@rollback_loop_mask _ _ _ _ _ _ _ _ _ _ _ _ _ _ Hlen Hw0 Hloop)
    as (Hml & Hwl & _).
  assert (Hinv : on_schedule weight_init decay k mask w).
  { apply (@rollback_loop_on_schedule
             self state action done bar decay weight_init k Hwi
             ltac:(lra) 0%nat mask0 mask w0 w wd Hlen Hw0).
    - apply zeros_on_schedule. exact Hzero.
    - simpl. rewrite Rmult_1_r. exact Hloop. }
  assert (Hlen' : length (ge_mask (forward (discriminator self) state action)
                                  bar) = length mask) by congruence.
  assert (Hw' : length w = length mask) by congruence.
  destruct (@rollback_iter_step _ _ _ _ _ _ _ _ _ _ _ _ _ Hlen' Hw' Hiter)
    as (_ & _ & _ & Hn & Hv).
  assert (Hpos : 0 < wd)
    by (rewrite Hwd; apply pow_schedule_pos; lra).
  destruct (Hinv i) as [Hout Hin]. rewrite Hv.
  split; [|split].
  - intros Hf. rewrite Hf. simpl. apply Hout.
    rewrite Hn in Hf. apply orb_false_iff in Hf. tauto.
  - intros Hf Ht. rewrite Ht, (Hout Hf), (Rltb_true Hpos). simpl.
    exact Hwd.
  - intros Ht. rewrite Hn, Ht. simpl. split; [reflexivity|].
    destruct (Hin Ht) as [[H0 Hz] | (j & Hj & Hj')].
    + subst k. rewrite Hz, (Rltb_true Hpos). simpl in *. lra.
    + rewrite Rltb_false.
      * destruct k; [lia | reflexivity].
      * rewrite Hwd, Hj'. apply Rmult_le_compat_l; [lra|].
        apply pow_le_earlier; [exact Hd | lia].
Qed.

Lemma rollback_weight_records_first_retention_witness :
  (nth 1 [false; true; true] false = false -> nth 1 [0; 1; 1] 0 = 0)
  /\ (nth 1 [false; false; true] false = false ->
      nth 1 [false; true; true] false = true ->
      nth 1 [0; 1; 1] 0 = 1 * 0.5 ^ 0)
  /\ (nth 1 [false; false; true] false = true ->
      nth 1 [false; true; true] false = true
      /\ nth 1 [0; 1; 1] 0 = if (0 =? 0)%nat then 1 else nth 1 [0; 0; 0] 0).
Proof.
  refine (@rollback_weight_records_first_retention
            demo_model (state demo_buffer) (action demo_buffer)
            (boundaries [1; 1; 0] [0; 0; 0]) 0.5 0.5 1 0
            [false; false; true] [false; false; true] [false; true; true]
            [0; 0; 0] [0; 0; 0] [0; 1; 1] 1 (1 * 0.5)
            _ _ eq_refl eq_refl _ eq_refl demo_first_pass 1%nat).
  - lra.
  - lra.
  - repeat constructor.
Defined.



Lemma count_true_pos (mask : list bool) (i : nat) :
  nth i mask false = true -> (1 <= count_true mask)%nat.
Proof.
  unfold count_true. revert i.
  induction mask as [|b mask IH]; intros [|i] H; simpl in *;
    try discriminate.
  - subst b. simpl. lia.
  - specialize (IH i H). destruct b; simpl; lia.
Qed.

Lemma count_true_none (mask : list bool) :
  (forall i, nth i mask false = false) -> count_true mask = 0%nat.
Proof.
  unfold count_true. induction mask as [|b mask IH]; intros H; simpl; auto.
  pose proof (H 0%nat) as H0. simpl in H0. subst b.
  apply IH. intros i. exact (H (S i)).
Qed.

Lemma rows_at_Forall {A : Type} (P : A -> Prop) (d : A) (x : list A)
      (ind : list nat) :
  Forall P x -> Forall (fun i => (i < length x)%nat) ind ->
  Forall P (rows_at d x ind).
Proof.
  intros HP Hind. unfold rows_at. apply Forall_map.
  eapply Forall_impl; [|exact Hind]. simpl. intros i Hi.
  rewrite Forall_forall in HP. apply HP. apply nth_In. exact Hi.
Qed.

(** X21.  Sampling from what the part of [select_data] after the base
    mask returns, on a freshly loaded buffer (weights all 1) of at least
    two rows, with [weight_init > 0], [decay > 0] and [rollback >= 1].  If
    the base mask holds somewhere, [sample] returns a minibatch of
    [batch_size] rows, and every sampled weight is positive.  If the base
    mask holds nowhere and no row scores at least [bar] on its state and
    action, the returned buffer is empty and [sample] raises. *)
Theorem sample_after_select_data :
  forall (rng : nat -> nat) (self : Model) (mask : list bool)
         (buf : ReplayBuffer) (bar : R) (rollback : nat)
         (decay weight_init : R) (batch_size : nat),
    columns_match_size buf ->
    (2 <= size buf)%nat ->
    length mask = size buf ->
    length (ge_mask (forward (discriminator self) (state buf) (action buf))
                    bar) = size buf ->
    Forall (fun x => x = 1) (weight buf) ->
    0 < weight_init -> 0 < decay -> (1 <= rollback)%nat ->
    exists buf',
      select_data_from self mask buf bar rollback decay weight_init = ok buf'
      /\ ((exists i, nth i mask false = true) ->
          exists batch,
            sample rng buf' batch_size = ok batch
            /\ length (b_state batch) = batch_size
            /\ length (b_weight batch) = batch_size
            /\ Forall (fun x => 0 < x) (b_weight batch))
      /\ ((forall i, nth i mask false = false) ->
          (forall j, nth j (ge_mask (forward (discriminator self) (state buf)
                                             (action buf)) bar) false
                     = false) ->
          size buf' = 0%nat
          /\ sample rng buf' batch_size = raise RuntimeError).
Proof.
  intros rng self mask buf bar rollback decay weight_init batch_size Hbuf
         Hsize Hm Hi Hone Hwi Hd Hroll.
  destruct (@select_data_from_schedule self mask buf bar rollback decay
              weight_init Hbuf Hsize Hm Hi Hone Hwi Hd)
    as (nd' & kept & w' & Hnl & Hk & Hw' & Hinv & Hbase & Hnone & Hsel).
  destruct Hbuf as (Hs & Ha & Hns & Hr & Hnd & Hf & Hwl & Hto).
  eexists. split; [exact Hsel|].
  match goal with
  | |- context [sample rng ?b batch_size] => set (buf' := b)
  end.
  split.
  - intros [i Hmi].
    pose proof (count_true_pos kept i (Hbase i Hmi)) as Hpos.
    pose proof (count_true_le kept) as Hle.
    assert (Hcov : columns_cover_size buf').
    { unfold columns_cover_size, buf'.
      cbn [size state action next_state reward not_done flag weight timeout].
      rewrite !bool_index_length by congruence. lia. }
    destruct (@sample_nonempty rng buf' batch_size Hpos Hcov)
      as (ind & Hlen & Hlt & Hsam).
    eexists. split; [exact Hsam|]. cbn [b_state b_weight].
    unfold rows_at at 1 2. rewrite !length_map.
    split; [exact Hlen|]. split; [exact Hlen|].
    apply rows_at_Forall.
    + unfold buf'. cbn [weight].
      apply (@bool_index_Forall _ _ 0). intros p _ Hkp.
      destruct (Hinv p) as [_ Hin].
      destruct (Hin Hkp) as [[H _] | (j & _ & Hv)]; [lia|].
      rewrite Hv. apply pow_schedule_pos; assumption.
    + eapply Forall_impl; [|exact Hlt]. intros p Hp.
      unfold buf' in *. cbn [size weight] in *.
      rewrite bool_index_length by congruence. exact Hp.
  - intros Hfalse Hraw.
    assert (Hz : size buf' = 0%nat).
    { unfold buf'. cbn [size]. apply count_true_none.
      apply Hnone; assumption. }
    split; [exact Hz|]. apply sample_empty. exact Hz.
Qed.

Lemma sample_after_select_data_witness :
  exists buf',
    select_data_from demo_model [false; false; true] demo_buffer 0.5 1 0.5 1
    = ok buf'
    /\ ((exists i, nth i [false; false; true] false = true) ->
        exists batch,
          sample demo_rng buf' 2 = ok batch
          /\ length (b_state batch) = 2%nat
          /\ length (b_weight batch) = 2%nat
          /\ Forall (fun x => 0 < x) (b_weight batch))
    /\ ((forall i, nth i [false; false; true] false = false) ->
        (forall j, nth j (ge_mask (forward (discriminator demo_model)
                                           (state demo_buffer)
                                           (action demo_buffer)) 0.5) false
                   = false) ->
        size buf' = 0%nat
        /\ sample demo_rng buf' 2 = raise RuntimeError).
Proof.
  apply (@sample_after_select_data
           demo_rng demo_model [false; false; true] demo_buffer 0.5 1 0.5 1
           2).
  - exact demo_buffer_columns.
  - simpl. lia.
  - reflexivity.
  - reflexivity.
  - repeat constructor.
  - lra.
  - lra.
  - lia.
Defined.
